(** * LF-web-crawler: [src/utils/crawler.py]

    A shallow embedding of the song-enrichment crawler and the properties of
    its fallback resolver, text normaliser, topic classifier, row enricher and
    result filter.

    Text is modelled as [string] whose characters are the code points 0..255
    (the Latin-1 range of Python's [str]).  Network access goes through an
    explicit world: an oracle that answers every transport attempt, with the
    attempts, sleeps and log lines recorded in the state that is threaded
    through the program. *)

From Stdlib Require Import String Ascii List ZArith NArith Bool Lia.
Import ListNotations.

Local Open Scope string_scope.
Set Warnings "-register-all".

(** ** Python [str] operations *)

Module Py.

Definition LF : ascii := ascii_of_nat 10.
Definition CR : ascii := ascii_of_nat 13.
Definition comma : ascii := ","%char.
Definition space : ascii := " "%char.

(** [str.lower()] on the code points 0..255: A-Z and the Latin-1 capitals
    U+00C0..U+00DE (U+00D7, the multiplication sign, apart) move up by 32. *)
Definition lower_char (c : ascii) : ascii :=
  let n := N_of_ascii c in
  if ((65 <=? n) && (n <=? 90)
      || (192 <=? n) && (n <=? 222) && negb (n =? 215))%N
  then ascii_of_N (n + 32) else c.

Fixpoint lower (s : string) : string :=
  match s with
  | EmptyString => EmptyString
  | String c s' => String (lower_char c) (lower s')
  end.

(** [str.isspace()] for one character of the range: U+0009..U+000D,
    U+001C..U+0020, U+0085 and U+00A0. *)
Definition isspace (c : ascii) : bool :=
  let n := N_of_ascii c in
  ((9 <=? n) && (n <=? 13) || (28 <=? n) && (n <=? 32)
   || (n =? 133) || (n =? 160))%N.

Fixpoint lstrip (s : string) : string :=
  match s with
  | EmptyString => EmptyString
  | String c s' => if isspace c then lstrip s' else s
  end.

Fixpoint rstrip (s : string) : string :=
  match s with
  | EmptyString => EmptyString
  | String c s' =>
      match rstrip s' with
      | EmptyString => if isspace c then EmptyString else String c EmptyString
      | r => String c r
      end
  end.

(** [s.strip()] *)
Definition strip (s : string) : string := rstrip (lstrip s).

(** [s.replace(old, new)] for one-character [old] and [new]. *)
Fixpoint replace (old new : ascii) (s : string) : string :=
  match s with
  | EmptyString => EmptyString
  | String c s' =>
      String (if Ascii.eqb c old then new else c) (replace old new s')
  end.

(** [word in text] on two strings. *)
Fixpoint contains (word text : string) : bool :=
  String.prefix word text
  || match text with
     | EmptyString => false
     | String _ text' => contains word text'
     end.

(** [sep.join(parts)] *)
Definition join (sep : string) (parts : list string) : string :=
  String.concat sep parts.

(** Occurrence of a character in a string. *)
Fixpoint has_char (c : ascii) (s : string) : bool :=
  match s with
  | EmptyString => false
  | String d s' => Ascii.eqb d c || has_char c s'
  end.

Fixpoint all_chars (p : ascii -> bool) (s : string) : bool :=
  match s with
  | EmptyString => true
  | String c s' => p c && all_chars p s'
  end.

End Py.

(** ** Text normaliser and topic classifier on text *)

(** The body of [preprocess_text] for a non-empty [str]:
    [text.replace(',', ' ').replace('\n', ' ').replace('\r', ' ')]. *)
Definition replace_separators (text : string) : string :=
  Py.replace Py.CR Py.space
    (Py.replace Py.LF Py.space (Py.replace Py.comma Py.space text)).

(** The [keywords] dict of [classify_topic], in insertion order. *)
Definition keywords : list (string * list string) :=
  [ ("love", ["love"; "heart"; "romance"; "affection"]);
    ("friends", ["friend"; "friendship"; "buddy"; "pal"]);
    ("life", ["life"; "living"; "existence"]);
    ("news", ["news"; "headline"; "report"; "journalism"]);
    ("holiday", ["holiday"; "vacation"; "festival"]);
    ("friendship", ["friendship"; "companionship"; "bond"]);
    ("war", ["war"; "battle"; "conflict"]);
    ("peace", ["peace"; "harmony"; "calm"]);
    ("character", ["character"; "personality"; "traits"]) ].

(** The inner loop [for word in words: if word in text.lower(): return topic]. *)
Fixpoint for_words (topic : string) (words : list string) (text : string)
  : option string :=
  match words with
  | [] => None
  | word :: rest =>
      if Py.contains word (Py.lower text) then Some topic
      else for_words topic rest text
  end.

(** The outer loop [for topic, words in keywords.items()]. *)
Fixpoint for_topics (items : list (string * list string)) (text : string)
  : option string :=
  match items with
  | [] => None
  | (topic, words) :: rest =>
      match for_words topic words text with
      | Some t => Some t
      | None => for_topics rest text
      end
  end.

Definition classify_topic (text : string) : string :=
  match for_topics keywords text with
  | Some topic => topic
  | None => "other"
  end.

(** ** Python values and exceptions *)

(** The dynamically typed values the program handles: cells of the sampled
    table and decoded JSON.  [VNum] is a number, of which the program only
    ever observes whether it is zero; [VNaN] is the float [nan] that pandas
    uses for a missing cell.  The entries of a [VDict] are in insertion
    order and have distinct keys. *)
Inductive value : Type :=
| VNone
| VBool (b : bool)
| VNum (z : Z)
| VNaN
| VStr (s : string)
| VList (items : list value)
| VDict (entries : list (string * value)).

Inductive exn : Type :=
| RequestException
| JSONDecodeError
| KeyError
| TypeError
| AttributeError
| ValueError.

Inductive result (A : Type) : Type :=
| Ok (a : A)
| Raise (e : exn).

Arguments Ok {A} a.
Arguments Raise {A} e.

Definition bindR {A B : Type} (c : result A) (k : A -> result B) : result B :=
  match c with
  | Ok a => k a
  | Raise e => Raise e
  end.

Declare Scope result_scope.
Delimit Scope result_scope with result.
Notation "x <-? c ;; k" := (bindR c (fun x => k))
  (at level 61, c at next level, right associativity) : result_scope.

Module Value.

(** [bool(v)] *)
Definition truthy (v : value) : bool :=
  match v with
  | VNone => false
  | VBool b => b
  | VNum z => negb (z =? 0)%Z
  | VNaN => true
  | VStr s => negb (s =? EmptyString)%string
  | VList items => match items with [] => false | _ => true end
  | VDict entries => match entries with [] => false | _ => true end
  end.

(** [isinstance(v, str)] *)
Definition is_str (v : value) : bool :=
  match v with VStr _ => true | _ => false end.

Fixpoint lookup (key : string) (entries : list (string * value)) : option value :=
  match entries with
  | [] => None
  | (k, v) :: rest => if (k =? key)%string then Some v else lookup key rest
  end.

(** [v[key]] with a [str] key. *)
Definition getitem (v : value) (key : string) : result value :=
  match v with
  | VDict entries =>
      match lookup key entries with
      | Some x => Ok x
      | None => Raise KeyError
      end
  | _ => Raise TypeError
  end.

Definition is_the_str (key : string) (v : value) : bool :=
  match v with VStr s => (s =? key)%string | _ => false end.

(** [key in v] with a [str] key. *)
Definition contains (key : string) (v : value) : result bool :=
  match v with
  | VDict entries =>
      Ok (match lookup key entries with Some _ => true | None => false end)
  | VList items => Ok (existsb (is_the_str key) items)
  | VStr s => Ok (Py.contains key s)
  | _ => Raise TypeError
  end.

Fixpoint chars (s : string) : list value :=
  match s with
  | EmptyString => []
  | String c s' => VStr (String c EmptyString) :: chars s'
  end.

(** The elements [for x in v] runs over. *)
Definition iter (v : value) : result (list value) :=
  match v with
  | VList items => Ok items
  | VDict entries => Ok (map (fun kv => VStr (fst kv)) entries)
  | VStr s => Ok (chars s)
  | _ => Raise TypeError
  end.

(** [v.lower()] *)
Definition lower (v : value) : result string :=
  match v with
  | VStr s => Ok (Py.lower s)
  | _ => Raise AttributeError
  end.

(** [v + s] for a [str] [s]. *)
Definition add_str (v : value) (s : string) : result string :=
  match v with
  | VStr a => Ok (a ++ s)
  | _ => Raise TypeError
  end.

(** [s + v] for a [str] [s]. *)
Definition str_add (s : string) (v : value) : result string :=
  match v with
  | VStr b => Ok (s ++ b)
  | _ => Raise TypeError
  end.

(** [v or w] *)
Definition or (v w : value) : value := if truthy v then v else w.

(** [v != s] for a [str] [s]. *)
Definition ne_str (v : value) (s : string) : bool :=
  match v with
  | VStr a => negb (a =? s)%string
  | _ => true
  end.

End Value.

(** ** The world: transport, events, log *)

(** What a request is addressed to, by the arguments the program builds its
    URL from; [Location] is the target of a redirect, which requests asks
    for by itself. *)
Inductive endpoint : Type :=
| GeniusSearch (song_title artist_name : value)
| SongPage (song_url : string)
| LastfmTrackInfo (artist title : value)
| Location (url : string).

(** The two schemes requests has an adapter for. *)
Inductive scheme : Type :=
| Https
| Http.

(** What requests makes of a URL before anything is sent: it is sent
    through the adapter of its scheme, or refused with a request error
    ([MissingSchema], [InvalidSchema], [InvalidURL]), or refused with the
    plain [ValueError] of [urlparse]. *)
Inductive preparation : Type :=
| Sendable (s : scheme)
| RefusedRequest
| RefusedValue.

(** The [Location] header of a redirect as requests handles it:
    [get_redirect_target] cannot decode it ([UnicodeDecodeError], a
    [ValueError]), or [resolve_redirects] works out a URL from it, which is
    sent through the adapter of its scheme or refused, by [urlparse] with a
    [ValueError], by [get_adapter] with [InvalidSchema] or by the adapter
    with [InvalidURL]. *)
Inductive target : Type :=
| Undecodable
| Target (p : preparation) (url : string).

(** A response as the program looks at it: the status, the seconds of a
    [Retry-After] header, the decoded JSON body ([None] when the body is not
    JSON) and, of the HTML body, the paragraphs of the first
    [div[class*='RichText__Container']] with their links removed and their
    text stripped ([None] when the page has no such element); the body is
    markup that the parser accepts. *)
Record response : Type := {
  status_code : Z;
  retry_after : option Z;
  json : option value;
  about_container : option (list string)
}.

(** What one attempt comes to: no response (a connection error); a
    response whose body requests reads, unless its status is retried; a
    response that requests follows (a status of 301, 302, 303, 307 or 308
    with a [Location] header that is not empty), whose body is discarded;
    or a response of a status that is not retried whose body requests fails
    to read ([ChunkedEncodingError], [ContentDecodingError],
    [ConnectionError]).  The program sets no timeout: an attempt that never
    ends is outside the model. *)
Inductive outcome : Type :=
| ConnectionFailed
| Responded (r : response)
| Redirected (to : target)
| Unreadable.

(** What the network sees of a run: the attempts, and the sleeps between
    them. *)
Inductive event : Type :=
| Attempt (e : endpoint)
| Sleep (seconds : Z).

(** The log lines of lines 45, 61 and 73, of line 126 and of line 123. *)
Inductive message : Type :=
| RequestFailed (e : exn)
| ErrorProcessingRow (row_id : value) (e : exn)
| Processed (song_title artist_name : value).

Inductive log_entry : Type :=
| LogError (m : message)
| LogDebug (m : message).

(** The transport answers an attempt from the events so far and the
    endpoint.  [json_error_is_request_exception] is [true] for requests 2.27
    and later, where the error of [response.json()] is a
    [RequestException].  [prepare_url] is what requests makes of the url of
    a hit, a text that the answer of the search chooses. *)
Record world : Type := {
  transport : list event -> endpoint -> outcome;
  json_error_is_request_exception : bool;
  prepare_url : string -> preparation
}.

(** The state threaded through the program, oldest entry first. *)
Record state : Type := {
  events : list event;
  log : list log_entry
}.

Definition initial : state := {| events := []; log := [] |}.

(** ** State and exception monad *)

Definition M (A : Type) : Type := state -> result A * state.

Definition ret {A : Type} (a : A) : M A := fun st => (Ok a, st).

Definition raise {A : Type} (e : exn) : M A := fun st => (Raise e, st).

Definition bind {A B : Type} (c : M A) (k : A -> M B) : M B :=
  fun st =>
    match c st with
    | (Ok a, st') => k a st'
    | (Raise e, st') => (Raise e, st')
    end.

Definition lift {A : Type} (r : result A) : M A := fun st => (r, st).

Declare Scope crawler_scope.
Delimit Scope crawler_scope with crawler.
Notation "x <- c ;; k" := (bind c (fun x => k))
  (at level 61, c at next level, right associativity) : crawler_scope.
Notation "c ;;; k" := (bind c (fun _ => k))
  (at level 61, right associativity) : crawler_scope.

(** [try: body / except <catches> as e: handler e] *)
Definition try_except {A : Type} (body : M A) (catches : exn -> bool)
  (handler : exn -> M A) : M A :=
  fun st =>
    match body st with
    | (Ok a, st') => (Ok a, st')
    | (Raise e, st') => if catches e then handler e st' else (Raise e, st')
    end.

(** An attempt or a sleep takes place. *)
Definition emit (ev : event) : M unit :=
  fun st => (Ok tt, {| events := events st ++ [ev]; log := log st |}).

(** [logging.error(...)], [logging.debug(...)] *)
Definition logging (entry : log_entry) : M unit :=
  fun st => (Ok tt, {| events := events st; log := log st ++ [entry] |}).

(** [except requests.RequestException] *)
Definition is_request_exception (w : world) (e : exn) : bool :=
  match e with
  | RequestException => true
  | JSONDecodeError => json_error_is_request_exception w
  | _ => false
  end.

(** [except Exception] *)
Definition is_exception (e : exn) : bool := true.

Local Open Scope crawler_scope.
Local Open Scope result_scope.

(** ** The HTTP layer: requests sessions over urllib3's [Retry]

    The program configures this layer at lines 18-27 and calls it with
    [session.get] and [requests.get]; the layer itself is library code,
    embedded here as requests ([sessions.py], [adapters.py], [models.py])
    and urllib3 ([util/retry.py], [connectionpool.py]) have it.  Every
    request of the program is a GET, and [allow_redirects] is left at its
    default: the session follows redirects, above the attempt loop. *)

Record Retry : Type := {
  total : nat;
  backoff_factor : Z;
  status_forcelist : list Z;
  allowed_methods : list string
}.

(** Lines 19-24. *)
Definition retry_strategy : Retry := {|
  total := 5;
  backoff_factor := 1;
  status_forcelist := [429; 500; 502; 503; 504]%Z;
  allowed_methods := ["HEAD"; "GET"; "OPTIONS"]
|}.

(** The [max_retries] of an adapter that was given none
    ([DEFAULT_RETRIES = 0]). *)
Definition default_retries : Retry := {|
  total := 0;
  backoff_factor := 0;
  status_forcelist := [];
  allowed_methods := ["HEAD"; "GET"; "PUT"; "DELETE"; "OPTIONS"; "TRACE"]
|}.

Definition RETRY_AFTER_STATUS_CODES : list Z := [413; 429; 503]%Z.
Definition DEFAULT_BACKOFF_MAX : Z := 120.

Definition has_retry_after (r : response) : bool :=
  match retry_after r with Some _ => true | None => false end.

(** [Retry.is_retry("GET", status, has_retry_after)] on a [Retry] whose
    remaining [total] is [remaining]. *)
Definition is_retry (retries : Retry) (remaining : nat) (r : response) : bool :=
  existsb (String.eqb "GET") (allowed_methods retries)
  && (existsb (Z.eqb (status_code r)) (status_forcelist retries)
      || negb (remaining =? 0)%nat && has_retry_after r
         && existsb (Z.eqb (status_code r)) RETRY_AFTER_STATUS_CODES).

(** [Retry.get_backoff_time()] after [errors] consecutive failed attempts. *)
Definition get_backoff_time (retries : Retry) (errors : nat) : Z :=
  if (errors <=? 1)%nat then 0%Z
  else Z.min DEFAULT_BACKOFF_MAX
         (backoff_factor retries * 2 ^ (Z.of_nat errors - 1))%Z.

Definition sleep_backoff (retries : Retry) (errors : nat) : M unit :=
  let backoff := get_backoff_time retries errors in
  if (backoff <=? 0)%Z then ret tt else emit (Sleep backoff).

(** [Retry.sleep(response)]: a positive [Retry-After] is obeyed, otherwise
    the backoff applies. *)
Definition sleep (retries : Retry) (errors : nat) (r : option response) : M unit :=
  match r with
  | Some resp =>
      match retry_after resp with
      | Some seconds =>
          if (0 <? seconds)%Z then emit (Sleep seconds)
          else sleep_backoff retries errors
      | None => sleep_backoff retries errors
      end
  | None => sleep_backoff retries errors
  end.

(** What an adapter hands back to the session: a response whose body the
    session reads, a redirect, or a response whose body cannot be read. *)
Inductive sent : Type :=
| Final (r : response)
| Moved (to : target)
| Unread.

(** The attempt loop of [HTTPConnectionPool.urlopen], which the adapter
    calls with [redirect=False]: [remaining] is the [total] of the current
    [Retry], which every failed attempt decrements and which is exhausted
    once it would fall below zero; [errors] counts the failed attempts so
    far.  An exhausted [Retry] raises [MaxRetryError], which requests turns
    into [ConnectionError] or [RetryError].  A redirect is no status of
    [status_forcelist] or [RETRY_AFTER_STATUS_CODES]: it is handed back. *)
Fixpoint urlopen (w : world) (retries : Retry) (remaining errors : nat)
  (e : endpoint) : M sent :=
  fun st =>
    let answer := transport w (events st) e in
    match emit (Attempt e) st with
    | (_, st1) =>
        match answer with
        | ConnectionFailed =>
            match remaining with
            | O => (Raise RequestException, st1)
            | S remaining' =>
                (sleep retries (S errors) None;;;
                 urlopen w retries remaining' (S errors) e) st1
            end
        | Responded r =>
            if is_retry retries remaining r then
              match remaining with
              | O => (Raise RequestException, st1)
              | S remaining' =>
                  (sleep retries (S errors) (Some r);;;
                   urlopen w retries remaining' (S errors) e) st1
              end
            else (Ok (Final r), st1)
        | Redirected to => (Ok (Moved to), st1)
        | Unreadable => (Ok Unread, st1)
        end
    end.

(** [HTTPAdapter(max_retries=...).send] *)
Definition HTTPAdapter_send (w : world) (max_retries : Retry) (e : endpoint)
  : M sent :=
  urlopen w max_retries (total max_retries) 0 e.

(** [Session.max_redirects] *)
Definition DEFAULT_REDIRECT_LIMIT : nat := 30.

(** [Session.send] on what the adapter handed back, with
    [Session.resolve_redirects]: the body of a response that is not
    followed is read; a redirect is followed, each hop through the adapter
    of its own scheme and with the [Retry] of that adapter anew, until
    [max_redirects] redirects have been followed ([TooManyRedirects]).  The
    target of a redirect is worked out before the limit is looked at, so its
    [ValueError] comes first; [TooManyRedirects] and [InvalidSchema] are
    both request errors. *)
Fixpoint resolve_redirects (w : world) (adapters : scheme -> Retry)
  (max_redirects : nat) (resp : sent) : M response :=
  match resp with
  | Final r => ret r
  | Unread => raise RequestException
  | Moved Undecodable => raise ValueError
  | Moved (Target RefusedValue _) => raise ValueError
  | Moved (Target RefusedRequest _) => raise RequestException
  | Moved (Target (Sendable s) url) =>
      match max_redirects with
      | O => raise RequestException
      | S redirects =>
          next <- HTTPAdapter_send w (adapters s) (Location url);;
          resolve_redirects w adapters redirects next
      end
  end.

Definition genius_base_url : string := "https://api.genius.com/search".
Definition lastfm_base_url : string := "http://ws.audioscrobbler.com/2.0/".

(** What requests makes of a URL.  The two URLs the program writes itself
    (lines 33 and 65, whatever their query is) are an https and an http URL
    with a host; on the url of a hit the world decides. *)
Definition prepare (w : world) (url : string) : preparation :=
  if (url =? genius_base_url)%string then Sendable Https
  else if (url =? lastfm_base_url)%string then Sendable Http
  else prepare_url w url.

(** [Session.get(url)] of a session with the adapters [adapters]. *)
Definition Session_get (w : world) (adapters : scheme -> Retry) (url : string)
  (e : endpoint) : M response :=
  match prepare w url with
  | Sendable s =>
      resp <- HTTPAdapter_send w (adapters s) e;;
      resolve_redirects w adapters DEFAULT_REDIRECT_LIMIT resp
  | RefusedRequest => raise RequestException
  | RefusedValue => raise ValueError
  end.

(** The adapters of [session]: line 26 mounts the retrying adapter on
    ["https://"] only; ["http://"] keeps the adapter of
    [Session.__init__]. *)
Definition session_adapters (s : scheme) : Retry :=
  match s with
  | Https => retry_strategy
  | Http => default_retries
  end.

(** The adapters of a session that was given none. *)
Definition default_adapters (s : scheme) : Retry := default_retries.

(** [session.get(url)] *)
Definition session_get (w : world) (url : string) (e : endpoint) : M response :=
  Session_get w session_adapters url e.

(** [requests.get(url)]: a session of its own. *)
Definition requests_get (w : world) (url : string) (e : endpoint) : M response :=
  Session_get w default_adapters url e.

(** [response.json()] *)
Definition response_json (r : response) : M value :=
  match json r with
  | Some data => ret data
  | None => raise JSONDecodeError
  end.

(** ** The program *)

Definition sentinel : string := "About section not available".

(** [v[k1][k2]...] *)
Fixpoint path (v : value) (keys : list string) : result value :=
  match keys with
  | [] => Ok v
  | key :: rest => x <-? Value.getitem v key;; path x rest
  end.

(** Lines 39-43: the loop over the hits; [Some url] when it returns. *)
Fixpoint search_hits (song_title artist_name : value) (results : list value)
  : result (option value) :=
  match results with
  | [] => Ok None
  | hit :: rest =>
      t <-? path hit ["result"; "title"];;
      hit_title <-? Value.lower t;;
      a <-? path hit ["result"; "primary_artist"; "name"];;
      hit_artist <-? Value.lower a;;
      title_lower <-? Value.lower song_title;;
      if Py.contains title_lower hit_title then
        artist_lower <-? Value.lower artist_name;;
        if Py.contains artist_lower hit_artist then
          url <-? path hit ["result"; "url"];;
          Ok (Some url)
        else search_hits song_title artist_name rest
      else search_hits song_title artist_name rest
  end.

Definition log_request_failed {A : Type} (e : exn) : M (option A) :=
  logging (LogError (RequestFailed e));;; ret None.

Definition or_else (returned : option value) (default : value) : M value :=
  match returned with
  | Some v => ret v
  | None => ret default
  end.

(** Lines 32-46. *)
Definition search_song (w : world) (song_title artist_name : value) : M value :=
  returned <-
    try_except
      (response <- session_get w genius_base_url
                     (GeniusSearch song_title artist_name);;
       if (status_code response =? 200)%Z then
         data <- response_json response;;
         results <- lift (path data ["response"; "hits"]);;
         hits <- lift (Value.iter results);;
         lift (search_hits song_title artist_name hits)
       else ret None)
      (is_request_exception w)
      log_request_failed;;
  or_else returned VNone.

(** [session.get(song_url)] on a value: requests takes the [str()] of what
    is not a [str], the text of a number, of [True], of a list or of a
    dict, which is no URL it sends ([MissingSchema], [InvalidURL],
    [InvalidSchema]). *)
Definition session_get_page (w : world) (song_url : value) : M response :=
  match song_url with
  | VStr url => session_get w url (SongPage url)
  | _ => raise RequestException
  end.

Definition newline : string := String Py.LF EmptyString.

(** Lines 48-62. *)
Definition get_genius_about (w : world) (song_url : value) : M value :=
  returned <-
    try_except
      (response <- session_get_page w song_url;;
       if (status_code response =? 200)%Z then
         match about_container response with
         | Some paragraphs => ret (Some (VStr (Py.join newline paragraphs)))
         | None => ret None
         end
       else ret None)
      (is_request_exception w)
      log_request_failed;;
  or_else returned VNone.

(** Lines 64-74. *)
Definition get_lastfm_about (w : world) (artist title : value) : M value :=
  returned <-
    try_except
      (response <- requests_get w lastfm_base_url
                     (LastfmTrackInfo artist title);;
       if (status_code response =? 200)%Z then
         data <- response_json response;;
         has_track <- lift (Value.contains "track" data);;
         if has_track then
           track <- lift (Value.getitem data "track");;
           has_wiki <- lift (Value.contains "wiki" track);;
           if has_wiki then
             content <- lift (path data ["track"; "wiki"; "content"]);;
             ret (Some content)
           else ret None
         else ret None
       else ret None)
      (is_request_exception w)
      log_request_failed;;
  or_else returned (VStr sentinel).

(** Lines 76-83. *)
Definition get_about_section (w : world) (artist title : value) : M value :=
  song_url <- search_song w title artist;;
  if Value.truthy song_url then
    about_section <- get_genius_about w song_url;;
    if Value.truthy about_section then ret about_section
    else get_lastfm_about w artist title
  else get_lastfm_about w artist title.

(** Lines 85-89. *)
Definition preprocess_text (text : value) : result value :=
  if Value.truthy text then
    match text with
    | VStr s => Ok (VStr (replace_separators s))
    | _ => Raise AttributeError
    end
  else Ok text.

(** A row of the sampled table: the columns read at line 130, the
    [about_section] column of line 140, and [topic], which [process_song]
    adds. *)
Module Series.

Record t : Type := {
  id : value;
  title : value;
  tag : value;
  artist : value;
  lyrics : value;
  about_section : value;
  topic : option value
}.

(** [row['about_section'] = v] *)
Definition set_about_section (row : t) (v : value) : t := {|
  id := id row; title := title row; tag := tag row; artist := artist row;
  lyrics := lyrics row; about_section := v; topic := topic row
|}.

(** [row['topic'] = v] *)
Definition set_topic (row : t) (v : value) : t := {|
  id := id row; title := title row; tag := tag row; artist := artist row;
  lyrics := lyrics row; about_section := about_section row; topic := Some v
|}.

End Series.

(** [not isinstance(song_title, str) or not song_title.strip()] *)
Definition invalid_title (song_title : value) : bool :=
  match song_title with
  | VStr s => negb (Value.truthy (VStr (Py.strip s)))
  | _ => true
  end.

(** Lines 116-124: the [try] block.  The row is a pandas [Series] of its
    own (one per [iterrows] step), so the assignments of lines 121-122 are
    seen through the returned row only. *)
Definition process_song_try (w : world) (row : Series.t) : M Series.t :=
  let song_title := Series.title row in
  let artist_name := Series.artist row in
  (if invalid_title song_title then raise ValueError else ret tt);;;
  about_section <- get_about_section w artist_name song_title;;
  normalized <- (if Value.truthy about_section
                 then lift (preprocess_text about_section)
                 else ret VNone);;
  let row := Series.set_about_section row normalized in
  with_space <- lift (Value.add_str (Series.lyrics row) " ");;
  text <- lift (Value.str_add with_space
                  (Value.or (Series.about_section row) (VStr EmptyString)));;
  let row := Series.set_topic row (VStr (classify_topic text)) in
  logging (LogDebug (Processed song_title artist_name));;;
  ret row.

(** Lines 114-127. *)
Definition process_song (w : world) (row : Series.t) : M (option Series.t) :=
  try_except
    (enriched <- process_song_try w row;; ret (Some enriched))
    is_exception
    (fun e =>
       logging (LogError (ErrorProcessingRow (Series.id row) e));;;
       ret None).

(** Line 147 on one worker: the rows in turn. *)
Fixpoint process_all (w : world) (rows : list Series.t)
  : M (list (option Series.t)) :=
  match rows with
  | [] => ret []
  | row :: rest =>
      result <- process_song w row;;
      results <- process_all w rest;;
      ret (result :: results)
  end.

(** Line 150. *)
Fixpoint matches (results : list (option Series.t)) : list Series.t :=
  match results with
  | [] => []
  | result :: rest =>
      match result with
      | Some row =>
          if Value.ne_str (Series.about_section row) sentinel
          then row :: matches rest
          else matches rest
      | None => matches rest
      end
  end.

(** Line 136: [sample_df['lyrics'].apply(preprocess_text)] calls
    [preprocess_text] on the cells in turn; the column is assigned once
    every call has returned. *)
Fixpoint apply_preprocess_text (rows : list Series.t)
  : result (list Series.t) :=
  match rows with
  | [] => Ok []
  | row :: rest =>
      cell <-? preprocess_text (Series.lyrics row);;
      rest' <-? apply_preprocess_text rest;;
      Ok ({| Series.id := Series.id row; Series.title := Series.title row;
             Series.tag := Series.tag row; Series.artist := Series.artist row;
             Series.lyrics := cell;
             Series.about_section := Series.about_section row;
             Series.topic := Series.topic row |} :: rest')
  end.

(** [pd.isnull(v)] on a cell. *)
Definition isnull (v : value) : bool :=
  match v with
  | VNone | VNaN => true
  | _ => false
  end.

(** Line 160: the rows of the output whose [about_section] is null. *)
Definition missing_about (output : list Series.t) : list Series.t :=
  filter (fun row => isnull (Series.about_section row)) output.

(** * Vocabulary of the properties *)

Local Open Scope list_scope.

(** ** Text *)

(** The characters [preprocess_text] replaces. *)
Definition is_separator (c : ascii) : bool :=
  Ascii.eqb c Py.comma || Ascii.eqb c Py.LF || Ascii.eqb c Py.CR.

(** A separator becomes a space, any other character stays. *)
Definition normal_char (c : ascii) : ascii :=
  if is_separator c then Py.space else c.

(** A rule of the table has a keyword that occurs in the lower-cased text. *)
Definition rule_matches (text : string) (rule : string * list string) : bool :=
  existsb (fun word => Py.contains word (Py.lower text)) (snd rule).

(** A title of white space only (the empty title included). *)
Definition blank (s : string) : bool := Py.all_chars Py.isspace s.

(** ** States and events *)

(** The state after the events [new]. *)
Definition record (new : list event) (st : state) : state :=
  {| events := events st ++ new; log := log st |}.

(** The state after the log line [entry]. *)
Definition logged (entry : log_entry) (st : state) : state :=
  {| events := events st; log := log st ++ [entry] |}.

(** [silent c]: [c] attempts no request and does not sleep. *)
Definition silent {A : Type} (c : M A) : Prop :=
  forall st, events (snd (c st)) = events st.

(** [traced c P]: the events [c] adds satisfy [P]. *)
Definition traced {A : Type} (c : M A) (P : list event -> Prop) : Prop :=
  forall st, exists new, events (snd (c st)) = events st ++ new /\ P new.

(** An event of a request to [e]: an attempt on [e] or a sleep. *)
Definition is_attempt_of (e : endpoint) (ev : event) : Prop :=
  ev = Attempt e \/ exists seconds, ev = Sleep seconds.

(** The endpoints attempted among [evs], in order. *)
Fixpoint attempted (evs : list event) : list endpoint :=
  match evs with
  | [] => []
  | Attempt e :: rest => e :: attempted rest
  | Sleep _ :: rest => attempted rest
  end.

(** The sleeps among [evs], in order. *)
Fixpoint sleeps (evs : list event) : list Z :=
  match evs with
  | [] => []
  | Attempt _ :: rest => sleeps rest
  | Sleep seconds :: rest => seconds :: sleeps rest
  end.

Definition is_lastfm (ev : event) : bool :=
  match ev with
  | Attempt (LastfmTrackInfo _ _) => true
  | _ => false
  end.

(** The number of attempts on the secondary source among [evs]. *)
Definition lastfm_calls (evs : list event) : nat :=
  length (filter is_lastfm evs).

(** An endpoint other than the lookup of Last.fm. *)
Definition is_genius (e : endpoint) : bool :=
  match e with
  | LastfmTrackInfo _ _ => false
  | _ => true
  end.

(** An event of following a redirect: an attempt on its target, or a
    sleep. *)
Definition is_followup (ev : event) : Prop :=
  (exists url, ev = Attempt (Location url)) \/ exists seconds, ev = Sleep seconds.

(** The world never answers with a redirect that requests follows. *)
Definition no_redirect (w : world) : Prop :=
  forall history e to, transport w history e <> Redirected to.

(** ** Retries *)

(** The events of [Retry.sleep]. *)
Definition slept (retries : Retry) (errors : nat) (r : option response)
  : list event :=
  let backoff :=
    if (get_backoff_time retries errors <=? 0)%Z then []
    else [Sleep (get_backoff_time retries errors)] in
  match r with
  | Some resp =>
      match retry_after resp with
      | Some seconds => if (0 <? seconds)%Z then [Sleep seconds] else backoff
      | None => backoff
      end
  | None => backoff
  end.




(** ** The two sources *)

(** The primary source as [get_about_section] asks it (lines 77-81): the
    search, then the page of the hit; [VNone] without a hit. *)
Definition primary (w : world) (artist title : value) : M value :=
  song_url <- search_song w title artist;;
  if Value.truthy song_url then get_genius_about w song_url else ret VNone.

(** The extraction of lines 70-71 from the decoded body: [Some content]
    when line 71 returns. *)
Definition wiki_content (data : value) : result (option value) :=
  has_track <-? Value.contains "track" data;;
  if has_track then
    track <-? Value.getitem data "track";;
    has_wiki <-? Value.contains "wiki" track;;
    if has_wiki then
      content <-? path data ["track"; "wiki"; "content"]%string;;
      Ok (Some content)
    else Ok None
  else Ok None.

(** The answer of Last.fm to the request of line 67: the response
    [requests.get] returns, or the error it raises. *)
Definition lastfm_answer (w : world) (artist title : value) (st : state)
  : result response :=
  fst (requests_get w lastfm_base_url (LastfmTrackInfo artist title) st).

(** What line 71 returns for an answer of Last.fm: [None] when
    [get_lastfm_about] does not get there. *)
Definition lastfm_found (answer : result response) : option value :=
  match answer with
  | Raise _ => None
  | Ok r =>
      if (status_code r =? 200)%Z then
        match json r with
        | Some data =>
            match wiki_content data with
            | Ok (Some content) => Some content
            | _ => None
            end
        | None => None
        end
      else None
  end.

(** What [get_lastfm_about] may hand back from an answer of Last.fm: the
    sentinel, or the wiki content of a decoded body of status 200. *)
Definition secondary_result (answer : result response) (v : value) : Prop :=
  v = VStr sentinel
  \/ exists r data,
       answer = Ok r /\ status_code r = 200%Z /\ json r = Some data
       /\ path data ["track"; "wiki"; "content"]%string = Ok v.

(** ** Rows *)

(** Lines 121-122 on the resolved about-text: the part of the [try] block
    after the lookup, up to the assignment of [topic]. *)
Definition assign_columns (row : Series.t) (about_section : value)
  : result Series.t :=
  normalized <-? (if Value.truthy about_section
                  then preprocess_text about_section else Ok VNone);;
  let row := Series.set_about_section row normalized in
  with_space <-? Value.add_str (Series.lyrics row) " ";;
  text <-? Value.str_add with_space
             (Value.or (Series.about_section row) (VStr EmptyString));;
  Ok (Series.set_topic row (VStr (classify_topic text))).

(** The log line of the handler at line 126. *)
Definition row_error (row : Series.t) (e : exn) : log_entry :=
  LogError (ErrorProcessingRow (Series.id row) e).

(** Both sources are unavailable for a row: the primary source yields
    nothing and the answer of Last.fm holds no wiki content. *)
Definition both_unavailable (w : world) (row : Series.t) (st : state) : Prop :=
  exists nothing st1,
    primary w (Series.artist row) (Series.title row) st = (Ok nothing, st1)
    /\ Value.truthy nothing = false
    /\ lastfm_found
         (lastfm_answer w (Series.artist row) (Series.title row) st1)
       = None.

Definition is_sentinel (v : value) : bool :=
  match v with
  | VStr s => (s =? sentinel)%string
  | _ => false
  end.

(** The entries line 150 is to keep: a row, and not one whose
    [about_section] is the sentinel. *)
Definition survives (result : option Series.t) : bool :=
  match result with
  | Some row => negb (is_sentinel (Series.about_section row))
  | None => false
  end.

(** ** Worlds and rows of the examples *)

Definition status_response (status : Z) : response :=
  {| status_code := status; retry_after := None; json := None;
     about_container := None |}.

Definition json_response (data : value) : response :=
  {| status_code := 200; retry_after := None; json := Some data;
     about_container := None |}.

Definition page_response (paragraphs : list string) : response :=
  {| status_code := 200; retry_after := None; json := None;
     about_container := Some paragraphs |}.

(** [{"response": {"hits": []}}] *)
Definition no_hits : value :=
  VDict [("response", VDict [("hits", VList [])])]%string.

(** A search result with one hit. *)
Definition one_hit (hit_title hit_artist url : string) : value :=
  VDict [("response",
          VDict [("hits",
                  VList [VDict [("result",
                                 VDict [("title", VStr hit_title);
                                        ("primary_artist",
                                         VDict [("name", VStr hit_artist)]);
                                        ("url", VStr url)])]])])]%string.

(** [{"track": {"wiki": {"content": content}}}] *)
Definition wiki (content : value) : value :=
  VDict [("track", VDict [("wiki", VDict [("content", content)])])]%string.

(** What requests makes of the urls of the examples: the page of the love
    song is an https URL with a host; a url without a scheme, which is what
    the examples ask for besides, is refused ([MissingSchema]). *)
Definition example_url (url : string) : preparation :=
  if (url =? "https://genius.com/love-song")%string then Sendable Https
  else RefusedRequest.

(** A world that answers by the kind of endpoint alone, and redirects
    nowhere. *)
Definition answering (search page lastfm : outcome) : world :=
  {| transport := fun _ e =>
       match e with
       | GeniusSearch _ _ => search
       | SongPage _ => page
       | LastfmTrackInfo _ _ => lastfm
       | Location _ => Responded (status_response 404)
       end;
     json_error_is_request_exception := true;
     prepare_url := example_url |}.

Definition song (song_title : value) : Series.t :=
  {| Series.id := VNum 1; Series.title := song_title;
     Series.tag := VStr "pop"; Series.artist := VStr "Artist A";
     Series.lyrics := VStr "..."; Series.about_section := VNone;
     Series.topic := None |}.

Definition love_song : Series.t := song (VStr "Love Song").

(** Genius has the song and its page says what it is about. *)
Definition genius_world : world :=
  answering
    (Responded (json_response
       (one_hit "Love Song" "Artist A" "https://genius.com/love-song")))
    (Responded (page_response ["A song about love, and heart"%string]))
    (Responded (status_response 404)).

(** Genius has no hit and the wiki content of Last.fm is the empty text. *)
Definition empty_wiki_world : world :=
  answering (Responded (json_response no_hits))
    (Responded (status_response 404))
    (Responded (json_response (wiki (VStr EmptyString)))).

(** Genius has no hit and the wiki content of Last.fm is [null]. *)
Definition null_wiki_world : world :=
  answering (Responded (json_response no_hits))
    (Responded (status_response 404))
    (Responded (json_response (wiki VNone))).

(** A row of the table whose lyrics cell is missing: pandas reads it as
    [nan]. *)
Definition missing_lyrics_song : Series.t :=
  {| Series.id := VNum 2; Series.title := VStr "Untitled";
     Series.tag := VStr "rock"; Series.artist := VStr "Artist B";
     Series.lyrics := VNaN; Series.about_section := VNone;
     Series.topic := None |}.

(** Genius has no hit and the wiki content of Last.fm is a text of its
    own, which the normaliser turns into the sentinel. *)
Definition comma_world : world :=
  answering (Responded (json_response no_hits))
    (Responded (status_response 404))
    (Responded (json_response (wiki (VStr "About section,not available")))).

(** The Genius search redirects to its http URL, where it is answered
    with status 503. *)
Definition downgrade_world : world :=
  {| transport := fun _ e =>
       match e with
       | GeniusSearch _ _ =>
           Redirected (Target (Sendable Http) "http://api.genius.com/search")
       | _ => Responded (status_response 503)
       end;
     json_error_is_request_exception := true;
     prepare_url := example_url |}.

(** Every attempt is answered with the status [status]. *)
Definition status_world (status : Z) : world :=
  {| transport := fun _ _ => Responded (status_response status);
     json_error_is_request_exception := true;
     prepare_url := example_url |}.

(** ** Hits of the search *)

(** A hit with the three fields [search_song] reads, all texts. *)
Record hit : Type := {
  hit_title : string;
  hit_artist : string;
  hit_url : string
}.

(** The hit as the decoded JSON has it. *)
Definition hit_value (h : hit) : value :=
  VDict [("result",
          VDict [("title", VStr (hit_title h));
                 ("primary_artist", VDict [("name", VStr (hit_artist h))]);
                 ("url", VStr (hit_url h))])]%string.

(** The test of line 42 on the texts of a hit. *)
Definition hit_matches (song_title artist_name : string) (h : hit) : bool :=
  Py.contains (Py.lower song_title) (Py.lower (hit_title h))
  && Py.contains (Py.lower artist_name) (Py.lower (hit_artist h)).

(** The body of a search response with the hits [hits]. *)
Definition hits_body (hits : list hit) : value :=
  VDict [("response", VDict [("hits", VList (map hit_value hits))])]%string.

(** ** Costs *)

(** The number of attempts among [evs]. *)
Definition attempts (evs : list event) : nat := length (attempted evs).

(** The seconds slept among [evs] (every sleep of the program is positive). *)
Definition slept_for (evs : list event) : nat :=
  list_sum (map Z.to_nat (sleeps evs)).

(** No response of the world carries a [Retry-After] header. *)
Definition no_retry_after (w : world) : Prop :=
  forall history e r, transport w history e = Responded r ->
                      retry_after r = None.

(** [costs m c bound]: the events [c] adds measure at most [bound]. *)
Definition costs {A : Type} (m : list event -> nat) (c : M A) (bound : nat)
  : Prop :=
  traced c (fun new => m new <= bound).

(** The bound of an attempt loop, from the measure [a] of an attempt and
    the bound [s errors] on the sleep after [errors] failed attempts. *)
Fixpoint urlopen_bound (a : nat) (s : nat -> nat) (remaining errors : nat)
  : nat :=
  a + match remaining with
      | O => 0
      | S remaining' => s (S errors) + urlopen_bound a s remaining' (S errors)
      end.

(** The seconds of the backoff after [errors] failed attempts. *)
Definition backoff_seconds (retries : Retry) (errors : nat) : nat :=
  Z.to_nat (get_backoff_time retries errors).

(** ** Cells of the output *)

(** A text of one line and one field: no comma, line feed or carriage
    return. *)
Definition clean (s : string) : bool :=
  Py.all_chars (fun c => negb (is_separator c)) s.

(** [row['about_section'] or ''] as a text. *)
Definition about_text (row : Series.t) : string :=
  match Series.about_section row with
  | VStr text => text
  | _ => EmptyString
  end.

(** Two rows with the same cells outside [lyrics]. *)
Definition same_but_lyrics (row row' : Series.t) : Prop :=
  Series.id row' = Series.id row
  /\ Series.title row' = Series.title row
  /\ Series.tag row' = Series.tag row
  /\ Series.artist row' = Series.artist row
  /\ Series.about_section row' = Series.about_section row
  /\ Series.topic row' = Series.topic row.

(** Two rows with the same cells outside [about_section] and [topic]. *)
Definition same_input (row row' : Series.t) : Prop :=
  Series.id row' = Series.id row
  /\ Series.title row' = Series.title row
  /\ Series.tag row' = Series.tag row
  /\ Series.artist row' = Series.artist row
  /\ Series.lyrics row' = Series.lyrics row.

(** [grows c]: [c] only adds lines to the log. *)
Definition grows {A : Type} (c : M A) : Prop :=
  forall st, exists lines, log (snd (c st)) = log st ++ lines.

(** Genius has no hit and Last.fm answers with a [wiki] without
    [content]. *)
Definition no_content_world : world :=
  answering (Responded (json_response no_hits))
    (Responded (status_response 404))
    (Responded (json_response
       (VDict [("track", VDict [("wiki", VDict [])])]%string))).

(** * Properties *)

(** ** Text *)

Section TextFacts.

Local Open Scope string_scope.

Lemma prefix_app (word text : string) :
  String.prefix word text = true <-> exists post, text = word ++ post.
Proof.
  revert text; induction word as [|c word IH]; intros text; simpl.
  - destruct text; split; intros; eauto.
  - destruct text as [|d text].
    + split; [discriminate | intros [post H]; discriminate].
    + simpl. destruct (ascii_dec c d) as [->|Hne].
      * rewrite IH. split; intros [post H]; exists post; congruence.
      * split; [discriminate | intros [post H]; congruence].
Qed.

Lemma contains_nil (word : string) :
  Py.contains word EmptyString = String.prefix word EmptyString.
Proof. simpl. apply orb_false_r. Qed.

Lemma contains_cons (word : string) (c : ascii) (text : string) :
  Py.contains word (String c text)
  = String.prefix word (String c text) || Py.contains word text.
Proof. reflexivity. Qed.

Lemma contains_occurs (word text : string) :
  Py.contains word text = true <-> exists pre post, text = pre ++ word ++ post.
Proof.
  induction text as [|c text IH].
  - rewrite contains_nil, prefix_app. split.
    + intros [post H]. exists EmptyString, post. exact H.
    + intros [pre [post H]]. destruct pre; [eauto | discriminate].
  - rewrite contains_cons, orb_true_iff, prefix_app, IH. split.
    + intros [[post H] | [pre [post H]]].
      * exists EmptyString, post. exact H.
      * exists (String c pre), post. simpl. now rewrite H.
    + intros [pre [post H]]. destruct pre as [|d pre]; simpl in H.
      * left. eauto.
      * right. exists pre, post. congruence.
Qed.

Lemma replace_separators_cons (c : ascii) (s : string) :
  replace_separators (String c s)
  = String (normal_char c) (replace_separators s).
Proof.
  unfold replace_separators, normal_char, is_separator; simpl. f_equal.
  destruct (Ascii.eqb_spec c Py.comma) as [->|H1]; [reflexivity|].
  destruct (Ascii.eqb_spec c Py.LF) as [->|H2]; [reflexivity|].
  reflexivity.
Qed.

Lemma replace_separators_nil : replace_separators EmptyString = EmptyString.
Proof. reflexivity. Qed.

Lemma normal_char_not_separator (c : ascii) :
  is_separator (normal_char c) = false.
Proof.
  unfold normal_char. destruct (is_separator c) eqn:E; [reflexivity | exact E].
Qed.

Lemma normal_char_fixed (c : ascii) :
  is_separator c = false -> normal_char c = c.
Proof. unfold normal_char. now intros ->. Qed.

Lemma replace_separators_get (s : string) (i : nat) :
  String.get i (replace_separators s) = option_map normal_char (String.get i s).
Proof.
  revert i; induction s as [|c s IH]; intros i.
  - reflexivity.
  - rewrite replace_separators_cons. destruct i; simpl; [reflexivity | apply IH].
Qed.

Lemma replace_separators_length (s : string) :
  String.length (replace_separators s) = String.length s.
Proof.
  induction s as [|c s IH]; [reflexivity|].
  rewrite replace_separators_cons. simpl. now rewrite IH.
Qed.

Lemma replace_separators_clean (s : string) :
  Py.all_chars (fun c => negb (is_separator c)) (replace_separators s) = true.
Proof.
  induction s as [|c s IH]; [reflexivity|].
  rewrite replace_separators_cons. simpl.
  now rewrite normal_char_not_separator, IH.
Qed.

Lemma clean_fixed (s : string) :
  Py.all_chars (fun c => negb (is_separator c)) s = true ->
  replace_separators s = s.
Proof.
  induction s as [|c s IH]; [reflexivity|].
  simpl. rewrite andb_true_iff, negb_true_iff. intros [Hc Hs].
  rewrite replace_separators_cons, (normal_char_fixed _ Hc), (IH Hs).
  reflexivity.
Qed.

Lemma replace_separators_idempotent (s : string) :
  replace_separators (replace_separators s) = replace_separators s.
Proof. apply clean_fixed, replace_separators_clean. Qed.

Lemma clean_has_no (s : string) :
  Py.all_chars (fun c => negb (is_separator c)) s = true ->
  Py.has_char Py.comma s = false /\ Py.has_char Py.LF s = false
  /\ Py.has_char Py.CR s = false.
Proof.
  induction s as [|c s IH]; [intros; repeat split|].
  simpl. rewrite andb_true_iff, negb_true_iff. intros [Hc Hs].
  destruct (IH Hs) as (H1 & H2 & H3). rewrite H1, H2, H3.
  unfold is_separator in Hc. rewrite !orb_false_iff in Hc.
  destruct Hc as [[-> ->] ->]. repeat split.
Qed.

Lemma replace_separators_empty (s : string) :
  replace_separators s = EmptyString <-> s = EmptyString.
Proof.
  destruct s; [split; reflexivity|].
  rewrite replace_separators_cons. split; discriminate.
Qed.

Lemma lstrip_all_space (s : string) :
  Py.all_chars Py.isspace (Py.lstrip s) = Py.all_chars Py.isspace s.
Proof.
  induction s as [|c s IH]; [reflexivity|].
  simpl. destruct (Py.isspace c) eqn:E; simpl; [exact IH | now rewrite E].
Qed.

Lemma rstrip_empty (s : string) :
  Py.rstrip s = EmptyString <-> Py.all_chars Py.isspace s = true.
Proof.
  induction s as [|c s IH]; [split; reflexivity|].
  simpl. destruct (Py.rstrip s) eqn:E.
  - destruct (Py.isspace c); simpl.
    + rewrite <- IH. split; reflexivity.
    + split; discriminate.
  - split; [discriminate|].
    rewrite andb_true_iff. intros [_ H]. apply IH in H. discriminate.
Qed.

Lemma strip_empty (s : string) :
  Py.strip s = EmptyString <-> Py.all_chars Py.isspace s = true.
Proof. unfold Py.strip. now rewrite rstrip_empty, lstrip_all_space. Qed.

Lemma for_words_existsb (topic : string) (words : list string) (text : string) :
  for_words topic words text
  = if existsb (fun word => Py.contains word (Py.lower text)) words
    then Some topic else None.
Proof.
  induction words as [|word words IH]; simpl; [reflexivity|].
  destruct (Py.contains word (Py.lower text)); simpl; [reflexivity | exact IH].
Qed.

Lemma for_topics_find (items : list (string * list string)) (text : string) :
  for_topics items text = option_map fst (find (rule_matches text) items).
Proof.
  induction items as [|[topic words] items IH]; simpl; [reflexivity|].
  rewrite for_words_existsb. unfold rule_matches at 1; simpl.
  destruct (existsb _ words); simpl; [reflexivity | exact IH].
Qed.

End TextFacts.

(** ** The normaliser *)

Lemma preprocess_text_str (s : string) :
  preprocess_text (VStr s) = Ok (VStr (replace_separators s)).
Proof. destruct s; reflexivity. Qed.

(** X26.  [preprocess_text] returns [None] for [None]; on every text it
    returns a text (it never fails) of the same length in which each comma,
    line feed and carriage return has become one space and every other
    character is as it was, so the result holds none of the three; and
    normalising the result again changes nothing. *)
Theorem preprocess_text_normalizes :
  preprocess_text VNone = Ok VNone
  /\ forall s : string, exists s' : string,
       preprocess_text (VStr s) = Ok (VStr s')
       /\ Py.has_char Py.comma s' = false
       /\ Py.has_char Py.LF s' = false
       /\ Py.has_char Py.CR s' = false
       /\ String.length s' = String.length s
       /\ (forall i, String.get i s' = option_map normal_char (String.get i s))
       /\ preprocess_text (VStr s') = Ok (VStr s').
Proof.
  split; [reflexivity|]. intros s. exists (replace_separators s).
  destruct (clean_has_no _ (replace_separators_clean s)) as (H1 & H2 & H3).
  repeat split; auto using preprocess_text_str, replace_separators_length,
    replace_separators_get.
  now rewrite preprocess_text_str, replace_separators_idempotent.
Qed.

(** ** C6: a missing cell *)

(** C6, at a null input the guard of line 86 lets through.  A missing cell
    is [nan] to pandas, null by [isnull] as line 160 has it, and truthy to
    [if text:], so [preprocess_text] calls [replace] on it and fails with
    [AttributeError] where the claim has it return its input; line 136,
    which applies it to the lyrics of every sampled row, fails with it on
    a table with one such row.  [None] is returned as it is. *)
Theorem preprocess_text_fails_on_missing_cell :
  isnull VNaN = true
  /\ Value.truthy VNaN = true
  /\ preprocess_text VNaN = Raise AttributeError
  /\ preprocess_text VNaN <> Ok VNaN
  /\ apply_preprocess_text [love_song; missing_lyrics_song]
     = Raise AttributeError
  /\ preprocess_text VNone = Ok VNone.
Proof.
  repeat split; try reflexivity. discriminate.
Qed.

(** ** C5: the classifier *)

Lemma rule_matches_occurs (text : string) (rule : string * list string) :
  rule_matches text rule = true
  <-> exists word pre post,
        In word (snd rule) /\ Py.lower text = (pre ++ word ++ post)%string.
Proof.
  unfold rule_matches. rewrite existsb_exists. split.
  - intros (word & Hin & H). apply contains_occurs in H.
    destruct H as (pre & post & H). eauto.
  - intros (word & pre & post & Hin & H). exists word. split; [exact Hin|].
    apply contains_occurs. eauto.
Qed.

(** C5.  [classify_topic] is a function of its text alone: its label is the
    topic of the first rule of the table, in the table's order, one of whose
    keywords occurs in the lower-cased text, and ["other"] when no rule has
    one; a keyword occurs when the lower-cased text is some prefix, the
    keyword, some suffix.  ["we are just friends"] is labelled ["friends"],
    not ["friendship"]. *)
Theorem classify_topic_first_match (text : string) :
  classify_topic text
  = match find (rule_matches text) keywords with
    | Some (topic, _) => topic
    | None => "other"%string
    end
  /\ (forall rule,
        rule_matches text rule = true
        <-> exists word pre post,
              In word (snd rule)
              /\ Py.lower text = (pre ++ word ++ post)%string)
  /\ classify_topic "we are just friends" = "friends"%string
  /\ classify_topic "we are just friends" <> "friendship"%string.
Proof.
  split; [|split; [intros; apply rule_matches_occurs | split]].
  - unfold classify_topic. rewrite for_topics_find.
    destruct (find (rule_matches text) keywords) as [[topic words]|];
      reflexivity.
  - reflexivity.
  - discriminate.
Qed.

(** ** Events of a computation *)

Section Events.

Context {A B : Type}.

Lemma silent_ret (a : A) : silent (ret a).
Proof. intros st; reflexivity. Qed.

Lemma silent_raise (e : exn) : silent (@raise A e).
Proof. intros st; reflexivity. Qed.

Lemma silent_lift (r : result A) : silent (lift r).
Proof. intros st; reflexivity. Qed.

Lemma silent_bind (c : M A) (k : A -> M B) :
  silent c -> (forall a, silent (k a)) -> silent (bind c k).
Proof.
  intros Hc Hk st. unfold bind. specialize (Hc st).
  destruct (c st) as [[a|e] st1]; simpl in *; [|exact Hc].
  now rewrite Hk.
Qed.

Lemma silent_try_except (body : M A) (catches : exn -> bool)
  (handler : exn -> M A) :
  silent body -> (forall e, silent (handler e)) ->
  silent (try_except body catches handler).
Proof.
  intros Hb Hh st. unfold try_except. specialize (Hb st).
  destruct (body st) as [[a|e] st1]; simpl in *; [exact Hb|].
  destruct (catches e); simpl; [|exact Hb]. now rewrite Hh.
Qed.

Lemma traced_weaken (c : M A) (P Q : list event -> Prop) :
  (forall new, P new -> Q new) -> traced c P -> traced c Q.
Proof.
  intros HPQ Hc st. destruct (Hc st) as (new & E & HP). eauto.
Qed.

Lemma silent_traced (c : M A) (P : list event -> Prop) :
  P [] -> silent c -> traced c P.
Proof.
  intros HP Hc st. exists []. now rewrite app_nil_r, Hc.
Qed.

Lemma traced_bind_silent (c : M A) (k : A -> M B) (P : list event -> Prop) :
  traced c P -> (forall a, silent (k a)) -> traced (bind c k) P.
Proof.
  intros Hc Hk st. unfold bind. destruct (Hc st) as (new & E & HP).
  exists new. split; [|exact HP].
  destruct (c st) as [[a|e] st1]; simpl in *; [|exact E].
  now rewrite Hk.
Qed.

Lemma traced_try_except_silent (body : M A) (catches : exn -> bool)
  (handler : exn -> M A) (P : list event -> Prop) :
  traced body P -> (forall e, silent (handler e)) ->
  traced (try_except body catches handler) P.
Proof.
  intros Hb Hh st. unfold try_except. destruct (Hb st) as (new & E & HP).
  exists new. split; [|exact HP].
  destruct (body st) as [[a|e] st1]; simpl in *; [exact E|].
  destruct (catches e); simpl; [|exact E]. now rewrite Hh.
Qed.

End Events.

Lemma silent_logging (entry : log_entry) : silent (logging entry).
Proof. intros st; reflexivity. Qed.

Lemma silent_response_json (r : response) : silent (response_json r).
Proof. unfold response_json. destruct (json r); intros st; reflexivity. Qed.

Lemma silent_log_request_failed {A : Type} (e : exn) :
  silent (@log_request_failed A e).
Proof.
  unfold log_request_failed. apply silent_bind.
  - apply silent_logging.
  - intros _. apply silent_ret.
Qed.

Lemma silent_or_else (returned : option value) (default : value) :
  silent (or_else returned default).
Proof. destruct returned; apply silent_ret. Qed.

Create HintDb silent.

#[local] Hint Resolve silent_ret silent_raise silent_lift silent_logging
  silent_response_json silent_log_request_failed silent_or_else : silent.

Ltac silence :=
  repeat first
    [ progress eauto with silent
    | apply silent_bind; [|intros ?]
    | apply silent_try_except; [|intros ?]
    | match goal with
      | |- silent (if ?b then _ else _) => destruct b
      | |- silent (match ?x with _ => _ end) => destruct x
      end ].

(** ** The attempt loop *)

Lemma record_record (a b : list event) (st : state) :
  record b (record a st) = record (a ++ b) st.
Proof. unfold record; simpl. now rewrite app_assoc. Qed.

Lemma emit_run (ev : event) (st : state) :
  emit ev st = (Ok tt, record [ev] st).
Proof. reflexivity. Qed.

Lemma record_nil (st : state) : record [] st = st.
Proof. destruct st; unfold record; simpl. now rewrite app_nil_r. Qed.

Lemma sleep_backoff_run (retries : Retry) (errors : nat) (st : state) :
  sleep_backoff retries errors st = (Ok tt, record (slept retries errors None) st).
Proof.
  unfold sleep_backoff, slept.
  destruct (get_backoff_time retries errors <=? 0)%Z.
  - now rewrite record_nil.
  - reflexivity.
Qed.

Lemma sleep_run (retries : Retry) (errors : nat) (r : option response)
  (st : state) :
  sleep retries errors r st = (Ok tt, record (slept retries errors r) st).
Proof.
  destruct r as [resp|]; [|apply sleep_backoff_run].
  unfold sleep, slept.
  destruct (retry_after resp) as [seconds|]; [|apply sleep_backoff_run].
  destruct (0 <? seconds)%Z; [reflexivity | apply sleep_backoff_run].
Qed.

Lemma slept_sleeps (retries : Retry) (errors : nat) (r : option response)
  (e : endpoint) :
  Forall (is_attempt_of e) (slept retries errors r).
Proof.
  assert (H : forall seconds, Forall (is_attempt_of e) [Sleep seconds])
    by (intros; constructor; [right; eauto | constructor]).
  unfold slept.
  destruct (get_backoff_time retries errors <=? 0)%Z;
    destruct r as [resp|]; try destruct (retry_after resp) as [seconds|];
    try destruct (0 <? seconds)%Z; auto.
Qed.

(** One step of the loop, by the transport's answer. *)
Lemma urlopen_step (w : world) (retries : Retry) (remaining errors : nat)
  (e : endpoint) (st : state) :
  urlopen w retries remaining errors e st
  = let st1 := record [Attempt e] st in
    let retry (r : option response) :=
      match remaining with
      | O => (Raise RequestException, st1)
      | S remaining' =>
          urlopen w retries remaining' (S errors) e
            (record (slept retries (S errors) r) st1)
      end in
    match transport w (events st) e with
    | ConnectionFailed => retry None
    | Responded r =>
        if is_retry retries remaining r then retry (Some r)
        else (Ok (Final r), st1)
    | Redirected to => (Ok (Moved to), st1)
    | Unreadable => (Ok Unread, st1)
    end.
Proof.
  destruct remaining; cbn [urlopen];
    destruct (transport w (events st) e) as [|r|to|]; cbn [emit];
    try reflexivity.
  - unfold bind at 1. now rewrite sleep_run.
  - destruct (is_retry retries (S remaining) r); [|reflexivity].
    unfold bind at 1. now rewrite sleep_run.
Qed.

Lemma urlopen_trace (w : world) (retries : Retry) (e : endpoint)
  (remaining errors : nat) :
  traced (urlopen w retries remaining errors e)
    (fun new => exists rest,
       new = Attempt e :: rest /\ Forall (is_attempt_of e) rest).
Proof.
  assert (Hone : forall (x : result sent) st,
            exists new,
              events (snd (x, record [Attempt e] st)) = events st ++ new
              /\ exists rest,
                   new = Attempt e :: rest /\ Forall (is_attempt_of e) rest).
  { intros x st. exists [Attempt e]. split; [reflexivity|].
    exists []. split; [reflexivity | constructor]. }
  revert errors; induction remaining as [|remaining IH]; intros errors st;
    rewrite urlopen_step; cbv zeta.
  - destruct (transport w (events st) e) as [|r|to|]; try apply Hone.
    destruct (is_retry retries 0 r); apply Hone.
  - assert (Hretry : forall r, exists new,
      events (snd (urlopen w retries remaining (S errors) e
                     (record (slept retries (S errors) r)
                        (record [Attempt e] st))))
      = events st ++ new
      /\ exists rest, new = Attempt e :: rest /\ Forall (is_attempt_of e) rest).
    { intros r. rewrite record_record.
      destruct (IH (S errors)
                  (record ([Attempt e] ++ slept retries (S errors) r) st))
        as (new & E & rest & -> & Hrest).
      exists (([Attempt e] ++ slept retries (S errors) r) ++ Attempt e :: rest).
      split; [rewrite E; simpl; now rewrite <- !app_assoc|].
      eexists; split; [reflexivity|].
      apply Forall_app; split; [apply slept_sleeps|].
      constructor; [left; reflexivity | exact Hrest]. }
    destruct (transport w (events st) e) as [|r|to|];
      [apply Hretry | | apply Hone | apply Hone].
    destruct (is_retry retries (S remaining) r); [apply Hretry | apply Hone].
Qed.

(** The adapter of a session that was given none makes one attempt. *)
Lemma default_send_run (w : world) (e : endpoint) (st : state) :
  HTTPAdapter_send w default_retries e st
  = (match transport w (events st) e with
     | ConnectionFailed => Raise RequestException
     | Responded r => Ok (Final r)
     | Redirected to => Ok (Moved to)
     | Unreadable => Ok Unread
     end, record [Attempt e] st).
Proof.
  unfold HTTPAdapter_send. rewrite urlopen_step. cbv zeta.
  destruct (transport w (events st) e) as [|r|to|]; reflexivity.
Qed.

(** What the loop hands back as a redirect is an answer of the
    transport. *)
Lemma urlopen_moved (w : world) (retries : Retry) (e : endpoint) (to : target) :
  forall (remaining errors : nat) (st : state),
    fst (urlopen w retries remaining errors e st) = Ok (Moved to) ->
    exists history, transport w history e = Redirected to.
Proof.
  induction remaining as [|remaining IH]; intros errors st;
    rewrite urlopen_step; cbv zeta;
    destruct (transport w (events st) e) as [|r|to'|] eqn:Hanswer;
    try destruct (is_retry _ _ r); simpl;
    try discriminate; try apply IH;
    intros [= <-]; eauto.
Qed.

(** ** Redirects *)

Lemma followup_attempts (url : string) (evs : list event) :
  Forall (is_attempt_of (Location url)) evs -> Forall is_followup evs.
Proof.
  apply Forall_impl. intros ev [-> | H]; [left; eauto | right; exact H].
Qed.

Lemma resolve_redirects_trace (w : world) (adapters : scheme -> Retry) :
  forall (max_redirects : nat) (resp : sent),
    traced (resolve_redirects w adapters max_redirects resp)
      (Forall is_followup).
Proof.
  assert (Hnone : forall (x : result response) st,
            exists new, events (snd (x, st)) = events st ++ new
                        /\ Forall is_followup new).
  { intros x st. exists []. rewrite app_nil_r. split; [reflexivity|constructor]. }
  induction max_redirects as [|redirects IH]; intros resp st;
    destruct resp as [r|[|[s| |] url]|]; try apply Hnone.
  cbn [resolve_redirects]. unfold bind, HTTPAdapter_send.
  destruct (urlopen_trace w (adapters s) (Location url)
              (total (adapters s)) 0 st) as (new & E & rest & -> & Hrest).
  assert (Hhop : Forall is_followup (Attempt (Location url) :: rest)).
  { constructor; [left; eauto | eapply followup_attempts, Hrest]. }
  destruct (urlopen w (adapters s) (total (adapters s)) 0 (Location url) st)
    as [[next|x] st1]; simpl in E; [|eauto].
  destruct (IH next st1) as (new' & E' & H').
  exists ((Attempt (Location url) :: rest) ++ new').
  split; [rewrite E', E, app_assoc; reflexivity|].
  apply Forall_app. auto.
Qed.

(** The events of a request of a session: none when the URL is refused,
    else the attempts on the endpoint and then those of the redirects. *)
Lemma Session_get_trace (w : world) (adapters : scheme -> Retry) (url : string)
  (e : endpoint) :
  traced (Session_get w adapters url e)
    (fun new => new = [] \/
       exists first rest,
         new = Attempt e :: first ++ rest
         /\ Forall (is_attempt_of e) first /\ Forall is_followup rest).
Proof.
  unfold Session_get. intros st.
  destruct (prepare w url) as [s| |];
    try (exists []; rewrite app_nil_r; split; [reflexivity | now left]).
  unfold bind, HTTPAdapter_send.
  destruct (urlopen_trace w (adapters s) e (total (adapters s)) 0 st)
    as (new & E & first & -> & Hfirst).
  destruct (urlopen w (adapters s) (total (adapters s)) 0 e st)
    as [[resp|x] st1]; simpl in E.
  - destruct (resolve_redirects_trace w adapters DEFAULT_REDIRECT_LIMIT resp st1)
      as (rest & E' & Hrest).
    exists ((Attempt e :: first) ++ rest).
    split; [rewrite E', E, app_assoc; reflexivity|].
    right. exists first, rest. auto.
  - exists (Attempt e :: first). split; [exact E|].
    right. exists first, []. rewrite app_nil_r. auto.
Qed.

(** ** Which source is asked *)

Lemma attempts_of_genius (e : endpoint) (evs : list event) :
  is_genius e = true -> Forall (is_attempt_of e) evs -> lastfm_calls evs = 0.
Proof.
  intros He H. unfold lastfm_calls.
  induction H as [|ev evs [-> | [seconds ->]] _ IH]; simpl.
  - reflexivity.
  - destruct e; simpl in *; try exact IH; discriminate.
  - exact IH.
Qed.

Lemma lastfm_calls_followup (evs : list event) :
  Forall is_followup evs -> lastfm_calls evs = 0.
Proof.
  intros H. unfold lastfm_calls.
  induction H as [|ev evs [[url ->] | [seconds ->]] _ IH]; simpl; auto.
Qed.

Lemma lastfm_calls_app (a b : list event) :
  lastfm_calls (a ++ b) = lastfm_calls a + lastfm_calls b.
Proof. unfold lastfm_calls. now rewrite filter_app, length_app. Qed.

Lemma session_get_trace (w : world) (url : string) (e : endpoint) :
  is_genius e = true ->
  traced (session_get w url e)
    (fun new => new = [] \/
       exists rest, new = Attempt e :: rest /\ lastfm_calls rest = 0).
Proof.
  intros He. eapply traced_weaken; [|apply Session_get_trace].
  intros new [-> | (first & rest & -> & Hfirst & Hrest)]; [now left|].
  right. exists (first ++ rest). split; [reflexivity|].
  now rewrite lastfm_calls_app, (attempts_of_genius e first He Hfirst),
    (lastfm_calls_followup rest Hrest).
Qed.

Lemma prepare_genius (w : world) : prepare w genius_base_url = Sendable Https.
Proof. reflexivity. Qed.

Lemma prepare_lastfm (w : world) : prepare w lastfm_base_url = Sendable Http.
Proof. reflexivity. Qed.

(** A request to a URL that requests sends begins with an attempt. *)
Lemma Session_get_begins (w : world) (adapters : scheme -> Retry)
  (url : string) (e : endpoint) (s : scheme) :
  prepare w url = Sendable s ->
  traced (Session_get w adapters url e)
    (fun new => exists first rest,
       new = Attempt e :: first ++ rest
       /\ Forall (is_attempt_of e) first /\ Forall is_followup rest).
Proof.
  intros Hurl st.
  destruct (Session_get_trace w adapters url e st) as (new & E & H).
  exists new. split; [exact E|].
  destruct H as [-> | H]; [|exact H].
  exfalso. revert E. unfold Session_get. rewrite Hurl.
  unfold bind, HTTPAdapter_send.
  destruct (urlopen_trace w (adapters s) e (total (adapters s)) 0 st)
    as (new & E & first & -> & _).
  destruct (urlopen w (adapters s) (total (adapters s)) 0 e st)
    as [[resp|x] st1]; simpl in E.
  - destruct (resolve_redirects_trace w adapters DEFAULT_REDIRECT_LIMIT resp st1)
      as (rest & E' & _).
    rewrite E', E, app_nil_r, <- app_assoc. intros H.
    rewrite <- (app_nil_r (events st)) in H at 2.
    apply app_inv_head in H. discriminate.
  - simpl. rewrite E, app_nil_r. intros H.
    rewrite <- (app_nil_r (events st)) in H at 2.
    apply app_inv_head in H. discriminate.
Qed.

Lemma search_song_trace (w : world) (song_title artist_name : value) :
  traced (search_song w song_title artist_name)
    (fun new => exists rest,
       new = Attempt (GeniusSearch song_title artist_name) :: rest
       /\ lastfm_calls rest = 0).
Proof.
  unfold search_song.
  apply traced_bind_silent; [|intros; silence].
  apply traced_try_except_silent; [|intros; silence].
  apply traced_bind_silent; [|intros; silence].
  eapply traced_weaken;
    [|apply (Session_get_begins w session_adapters genius_base_url _ Https),
        prepare_genius].
  intros new (first & rest & -> & Hfirst & Hrest).
  exists (first ++ rest). split; [reflexivity|].
  now rewrite lastfm_calls_app,
    (attempts_of_genius (GeniusSearch song_title artist_name) first eq_refl
       Hfirst),
    (lastfm_calls_followup rest Hrest).
Qed.

Lemma get_genius_about_trace (w : world) (song_url : value) :
  traced (get_genius_about w song_url) (fun new => lastfm_calls new = 0).
Proof.
  unfold get_genius_about.
  apply traced_bind_silent; [|intros; silence].
  apply traced_try_except_silent; [|intros; silence].
  apply traced_bind_silent; [|intros; silence].
  unfold session_get_page.
  destruct song_url as [| | | |url| |];
    try (apply silent_traced; [reflexivity | apply silent_raise]).
  eapply traced_weaken; [|apply session_get_trace; reflexivity].
  intros new [-> | (rest & -> & H)]; [reflexivity | exact H].
Qed.

(** [requests.get] on the URL of Last.fm makes one attempt on Last.fm, and
    then those of the redirects. *)
Lemma requests_get_trace (w : world) (e : endpoint) :
  traced (requests_get w lastfm_base_url e)
    (fun new => exists rest, new = Attempt e :: rest /\ Forall is_followup rest).
Proof.
  unfold requests_get, Session_get. rewrite prepare_lastfm.
  intros st. unfold bind, default_adapters. rewrite default_send_run.
  destruct (transport w (events st) e) as [|r|to|];
    try (exists [Attempt e]; split; [reflexivity|];
         exists []; split; [reflexivity | constructor]).
  destruct (resolve_redirects_trace w (fun _ => default_retries)
              DEFAULT_REDIRECT_LIMIT (Moved to) (record [Attempt e] st))
    as (rest & E & Hrest).
  exists (Attempt e :: rest). split; [|eauto].
  rewrite E. simpl. now rewrite <- app_assoc.
Qed.

(** An answer that is no redirect ends [requests.get] after its one
    attempt. *)
Lemma requests_get_responded (w : world) (e : endpoint) (r : response)
  (st : state) :
  transport w (events st) e = Responded r ->
  requests_get w lastfm_base_url e st = (Ok r, record [Attempt e] st).
Proof.
  intros Hanswer. unfold requests_get, Session_get. rewrite prepare_lastfm.
  unfold bind, default_adapters. rewrite default_send_run, Hanswer.
  reflexivity.
Qed.

(** [get_lastfm_about] by the answer of its request. *)
Lemma get_lastfm_about_run (w : world) (artist title : value) (st : state) :
  get_lastfm_about w artist title st
  = match requests_get w lastfm_base_url (LastfmTrackInfo artist title) st with
    | (answer, st1) =>
        let caught e :=
          (Ok (VStr sentinel), logged (LogError (RequestFailed e)) st1) in
        match answer with
        | Raise e =>
            if is_request_exception w e then caught e else (Raise e, st1)
        | Ok r =>
            if (status_code r =? 200)%Z then
              match json r with
              | None =>
                  if json_error_is_request_exception w
                  then caught JSONDecodeError
                  else (Raise JSONDecodeError, st1)
              | Some data =>
                  match wiki_content data with
                  | Ok (Some content) => (Ok content, st1)
                  | Ok None => (Ok (VStr sentinel), st1)
                  | Raise e =>
                      if is_request_exception w e then caught e
                      else (Raise e, st1)
                  end
              end
            else (Ok (VStr sentinel), st1)
        end
    end.
Proof.
  unfold get_lastfm_about. unfold bind at 1, try_except, bind at 1.
  destruct (requests_get w lastfm_base_url (LastfmTrackInfo artist title) st)
    as [[r|x] st1]; cbv zeta.
  2: { destruct (is_request_exception w x); reflexivity. }
  destruct (status_code r =? 200)%Z; [|reflexivity].
  unfold response_json, wiki_content.
  destruct (json r) as [data|]; simpl.
  2: { unfold bind, raise. simpl.
       destruct (json_error_is_request_exception w); reflexivity. }
  unfold bind, lift, ret, bindR.
  destruct (Value.contains "track" data) as [[|]|e]; simpl;
    try reflexivity.
  2: { destruct (is_request_exception w e); reflexivity. }
  destruct (Value.getitem data "track") as [track|e]; simpl.
  2: { destruct (is_request_exception w e); reflexivity. }
  destruct (Value.contains "wiki" track) as [[|]|e]; simpl; try reflexivity.
  2: { destruct (is_request_exception w e); reflexivity. }
  destruct (Value.getitem track "wiki") as [wiki|e]; simpl.
  2: { destruct (is_request_exception w e); reflexivity. }
  destruct (Value.getitem wiki "content") as [content|e]; simpl;
    [reflexivity|].
  destruct (is_request_exception w e); reflexivity.
Qed.

(** The events of [get_lastfm_about] are those of its request. *)
Lemma get_lastfm_about_events (w : world) (artist title : value) (st : state) :
  events (snd (get_lastfm_about w artist title st))
  = events (snd (requests_get w lastfm_base_url
                   (LastfmTrackInfo artist title) st)).
Proof.
  rewrite get_lastfm_about_run.
  destruct (requests_get w lastfm_base_url (LastfmTrackInfo artist title) st)
    as [[r|x] st1]; cbv zeta; simpl.
  - destruct (status_code r =? 200)%Z; [|reflexivity].
    destruct (json r) as [data|].
    + destruct (wiki_content data) as [[content|]|e]; try reflexivity.
      destruct (is_request_exception w e); reflexivity.
    + destruct (json_error_is_request_exception w); reflexivity.
  - destruct (is_request_exception w x); reflexivity.
Qed.

Lemma wiki_content_path (data content : value) :
  wiki_content data = Ok (Some content) ->
  path data ["track"; "wiki"; "content"]%string = Ok content.
Proof.
  unfold wiki_content, bindR.
  destruct (Value.contains "track" data) as [[|]|]; try discriminate.
  destruct (Value.getitem data "track") as [track|]; try discriminate.
  destruct (Value.contains "wiki" track) as [[|]|]; try discriminate.
  destruct (path data ["track"; "wiki"; "content"]%string); congruence.
Qed.

Lemma get_lastfm_about_result (w : world) (artist title : value) (st : state) :
  (exists rest,
      events (snd (get_lastfm_about w artist title st))
      = events st ++ Attempt (LastfmTrackInfo artist title) :: rest
      /\ lastfm_calls rest = 0)
  /\ match fst (get_lastfm_about w artist title st) with
     | Ok v => secondary_result (lastfm_answer w artist title st) v
     | Raise e => is_request_exception w e = false
     end.
Proof.
  split.
  - rewrite get_lastfm_about_events.
    destruct (requests_get_trace w (LastfmTrackInfo artist title) st)
      as (new & E & rest & -> & Hrest).
    exists rest. split; [exact E | now apply lastfm_calls_followup].
  - rewrite get_lastfm_about_run. unfold secondary_result, lastfm_answer.
    destruct (requests_get w lastfm_base_url (LastfmTrackInfo artist title) st)
      as [[r|x] st1]; cbv zeta; cbn [fst].
    2: { destruct (is_request_exception w x) eqn:Hx; cbn [fst]; auto. }
    destruct (status_code r =? 200)%Z eqn:Hstatus; [|now left].
    apply Z.eqb_eq in Hstatus.
    destruct (json r) as [data|] eqn:Hjson.
    + destruct (wiki_content data) as [[content|]|e] eqn:Hwiki; cbn [fst].
      * right. exists r, data. repeat split; auto using wiki_content_path.
      * now left.
      * destruct (is_request_exception w e) eqn:He; cbn [fst]; auto.
    + destruct (json_error_is_request_exception w) eqn:Hflag; cbn [fst]; auto.
Qed.

(** ** The fallback order *)

(** X25.  [get_about_section] asks the primary source first: the events it
    adds begin with the attempt on the Genius search and hold no attempt on
    Last.fm while the primary source is asked.  When the primary source
    yields a text (a truthy result) that text is returned at once, in the
    state the primary source left, so Last.fm received no call.  Only when
    the primary source yields nothing is Last.fm asked, with exactly one
    attempt on Last.fm itself, and what [get_lastfm_about] gives is
    returned: the sentinel, or the wiki content of an answer of status 200
    as it is (or an error that is not a request error).  An error of the
    primary source that is not a request error leaves Last.fm unasked as
    well. *)
Theorem get_about_section_fallback_order
  (w : world) (artist title : value) (st : state) :
  let st1 := snd (primary w artist title st) in
  (exists rest,
      events st1 = events st ++ Attempt (GeniusSearch title artist) :: rest
      /\ lastfm_calls rest = 0)
  /\ match fst (primary w artist title st) with
     | Ok text =>
         if Value.truthy text then
           get_about_section w artist title st = (Ok text, st1)
         else
           get_about_section w artist title st
           = get_lastfm_about w artist title st1
           /\ (exists rest,
                  events (snd (get_about_section w artist title st))
                  = events st1 ++ Attempt (LastfmTrackInfo artist title) :: rest
                  /\ lastfm_calls rest = 0)
           /\ match fst (get_about_section w artist title st) with
              | Ok v => secondary_result (lastfm_answer w artist title st1) v
              | Raise e => is_request_exception w e = false
              end
     | Raise e => get_about_section w artist title st = (Raise e, st1)
     end.
Proof.
  cbv zeta. split.
  - unfold primary, bind.
    destruct (search_song_trace w title artist st) as (new & E & rest & -> & H).
    destruct (search_song w title artist st) as [[song_url|e] st1];
      simpl in E |- *; [|eauto].
    destruct (Value.truthy song_url); [|simpl; eauto].
    destruct (get_genius_about_trace w song_url st1) as (new' & E' & H').
    exists (rest ++ new'). rewrite E', E, <- app_assoc; simpl.
    split; [reflexivity|]. now rewrite lastfm_calls_app, H, H'.
  - unfold get_about_section, primary, bind.
    destruct (search_song w title artist st) as [[song_url|e] st1];
      simpl; [|reflexivity].
    destruct (Value.truthy song_url) eqn:Hurl; simpl.
    + destruct (get_genius_about w song_url st1) as [[text|e] st2];
        simpl; [|reflexivity].
      destruct (Value.truthy text); [reflexivity|].
      destruct (get_lastfm_about_result w artist title st2) as [E R].
      auto.
    + destruct (get_lastfm_about_result w artist title st1) as [E R].
      auto.
Qed.

(** ** C1: what the secondary source hands back *)

(** C1, at an answer of Last.fm whose wiki content is no text found.
    Genius has no hit, the primary source yields nothing, and Last.fm is
    consulted with one attempt, as the claim says; its wiki content is the
    empty text, or [null], and [get_about_section] returns that as it is,
    where the claim has the sentinel returned: the result is falsy, which
    is what line 80 takes for nothing found, and it is not the sentinel. *)
Theorem get_about_section_returns_empty_content :
  let artist := VStr "Artist A" in
  let title := VStr "Love Song" in
  let asked :=
    record [Attempt (GeniusSearch title artist);
            Attempt (LastfmTrackInfo artist title)] initial in
  fst (primary empty_wiki_world artist title initial) = Ok VNone
  /\ get_about_section empty_wiki_world artist title initial
     = (Ok (VStr EmptyString), asked)
  /\ fst (primary null_wiki_world artist title initial) = Ok VNone
  /\ get_about_section null_wiki_world artist title initial
     = (Ok VNone, asked)
  /\ Value.truthy (VStr EmptyString) = false
  /\ Value.truthy VNone = false
  /\ VStr EmptyString <> VStr sentinel
  /\ VNone <> VStr sentinel.
Proof.
  cbv zeta. repeat split; try reflexivity; discriminate.
Qed.

(** ** C4: retries *)

Lemma transient_is_retry (remaining : nat) (r : response) :
  In (status_code r) (status_forcelist retry_strategy) ->
  is_retry retry_strategy remaining r = true.
Proof.
  intros Hin. unfold is_retry.
  change (existsb (String.eqb "GET") (allowed_methods retry_strategy))
    with true.
  cbv iota. apply orb_true_iff. left. apply existsb_exists.
  exists (status_code r). split; [exact Hin | apply Z.eqb_refl].
Qed.

Lemma slept_no_header (retries : Retry) (errors : nat) (r : response) :
  retry_after r = None ->
  slept retries errors (Some r) = slept retries errors None.
Proof. unfold slept. now intros ->. Qed.









(** ** The row enricher *)

Lemma invalid_title_blank (song_title : value) :
  invalid_title song_title = true
  <-> Value.is_str song_title = false
      \/ exists s, song_title = VStr s /\ blank s = true.
Proof.
  unfold blank.
  destruct song_title as [| | | |s| |]; simpl;
    try (split; [intros _; now left | reflexivity]).
  rewrite negb_involutive, String.eqb_eq, strip_empty. split.
  - intros H. right. eauto.
  - intros [H | (s' & E & H)]; [discriminate | congruence].
Qed.

Lemma process_song_try_run (w : world) (row : Series.t) (st : state) :
  process_song_try w row st
  = if invalid_title (Series.title row) then (Raise ValueError, st)
    else
      match get_about_section w (Series.artist row) (Series.title row) st with
      | (Ok about_section, st1) =>
          match assign_columns row about_section with
          | Ok enriched =>
              (Ok enriched,
               logged (LogDebug (Processed (Series.title row)
                                   (Series.artist row))) st1)
          | Raise e => (Raise e, st1)
          end
      | (Raise e, st1) => (Raise e, st1)
      end.
Proof.
  unfold process_song_try, bind at 1.
  destruct (invalid_title (Series.title row)); [reflexivity|].
  unfold ret at 1. unfold bind at 1.
  destruct (get_about_section w (Series.artist row) (Series.title row) st)
    as [[about_section|e] st1]; [|reflexivity].
  unfold assign_columns, bind, lift, ret, bindR.
  destruct (Value.truthy about_section).
  - destruct (preprocess_text about_section) as [normalized|e];
      [|reflexivity].
    destruct (Value.add_str _ _) as [with_space|e]; [|reflexivity].
    destruct (Value.str_add _ _) as [text|e]; reflexivity.
  - destruct (Value.add_str _ _) as [with_space|e]; [|reflexivity].
    destruct (Value.str_add _ _) as [text|e]; reflexivity.
Qed.

Lemma process_song_run (w : world) (row : Series.t) (st : state) :
  process_song w row st
  = match process_song_try w row st with
    | (Ok enriched, st1) => (Ok (Some enriched), st1)
    | (Raise e, st1) => (Ok None, logged (row_error row e) st1)
    end.
Proof.
  unfold process_song, try_except, bind.
  destruct (process_song_try w row st) as [[enriched|e] st1]; reflexivity.
Qed.

Lemma assign_columns_frame (row enriched : Series.t) (about_section : value) :
  assign_columns row about_section = Ok enriched ->
  Series.id enriched = Series.id row
  /\ Series.title enriched = Series.title row
  /\ Series.tag enriched = Series.tag row
  /\ Series.artist enriched = Series.artist row
  /\ Series.lyrics enriched = Series.lyrics row
  /\ (Series.about_section enriched = VNone
      \/ exists text, Series.about_section enriched = VStr text)
  /\ exists label, Series.topic enriched = Some (VStr label).
Proof.
  unfold assign_columns, bindR.
  destruct (Value.truthy about_section) eqn:Htruthy.
  - destruct (preprocess_text about_section) as [normalized|] eqn:Hn;
      [|discriminate].
    destruct (Value.add_str _ _); [|discriminate].
    destruct (Value.str_add _ _); [|discriminate].
    intros [= <-]; simpl. repeat split; eauto.
    unfold preprocess_text in Hn. rewrite Htruthy in Hn.
    destruct about_section; try discriminate. injection Hn as <-. eauto.
  - destruct (Value.add_str _ _); [|discriminate].
    destruct (Value.str_add _ _); [|discriminate].
    intros [= <-]; simpl. repeat split; eauto.
Qed.

(** ** C7: fail-fast validation *)

(** C7.  For a row whose title is not a [str] or is blank, [process_song]
    returns [None] and adds no event: no request is attempted, the only
    effect is the error line of the row. *)
Theorem process_song_rejects_invalid_title
  (w : world) (row : Series.t) (st : state)
  (Htitle : Value.is_str (Series.title row) = false
            \/ exists s, Series.title row = VStr s /\ blank s = true) :
  process_song w row st
  = (Ok None, logged (row_error row ValueError) st)
  /\ events (snd (process_song w row st)) = events st.
Proof.
  apply invalid_title_blank in Htitle.
  rewrite process_song_run, process_song_try_run, Htitle. split; reflexivity.
Qed.

Lemma process_song_rejects_invalid_title_witness :
  blank "   " = true
  /\ events (snd (process_song genius_world (song (VStr "   ")) initial)) = [].
Proof.
  split; [reflexivity|].
  apply (process_song_rejects_invalid_title genius_world
           (song (VStr "   ")) initial).
  right. exists "   "%string. split; reflexivity.
Defined.

(** ** C8: failure isolation *)

Lemma assign_columns_needs_lyrics (row : Series.t) (about_section : value) :
  Value.is_str (Series.lyrics row) = false ->
  exists e, assign_columns row about_section = Raise e.
Proof.
  intros Hlyrics. unfold assign_columns, bindR.
  destruct (if Value.truthy about_section
            then preprocess_text about_section else Ok VNone)
    as [normalized|e]; [|eauto].
  simpl. destruct (Series.lyrics row); try discriminate; simpl; eauto.
Qed.

Lemma process_song_ok (w : world) (row : Series.t) (st : state) :
  exists result, fst (process_song w row st) = Ok result.
Proof.
  rewrite process_song_run.
  destruct (process_song_try w row st) as [[enriched|e] st1]; simpl; eauto.
Qed.

(** C8.  [process_song] never raises: whatever the [try] block raises, at
    whatever stage, becomes the result [None] with the error line of the
    row, and what the block returns is returned; a row whose [lyrics] is
    missing (not a [str]) ends as [None] in this way; so [process_all]
    yields one result for every row, whatever happened to the others. *)
Theorem process_song_isolates_failures
  (w : world) (row : Series.t) (st : state) :
  (exists result, fst (process_song w row st) = Ok result)
  /\ match process_song_try w row st with
     | (Ok enriched, st1) => process_song w row st = (Ok (Some enriched), st1)
     | (Raise e, st1) =>
         process_song w row st = (Ok None, logged (row_error row e) st1)
     end
  /\ (Value.is_str (Series.lyrics row) = false ->
      fst (process_song w row st) = Ok None)
  /\ forall rows : list Series.t,
       exists results,
         fst (process_all w rows st) = Ok results
         /\ length results = length rows.
Proof.
  split; [apply process_song_ok|]. split; [|split].
  - rewrite process_song_run.
    destruct (process_song_try w row st) as [[enriched|e] st1]; reflexivity.
  - intros Hlyrics. rewrite process_song_run, process_song_try_run.
    destruct (invalid_title (Series.title row)); [reflexivity|].
    destruct (get_about_section w (Series.artist row) (Series.title row) st)
      as [[about_section|e] st1]; [|reflexivity].
    destruct (assign_columns_needs_lyrics row about_section Hlyrics) as [e ->].
    reflexivity.
  - intros rows. revert st. induction rows as [|r rows IH]; intros st.
    + exists []. split; reflexivity.
    + cbn [process_all]. unfold bind at 1.
      destruct (process_song_ok w r st) as [result Hr].
      destruct (process_song w r st) as [res st1]; simpl in Hr; subst res.
      unfold bind at 1. destruct (IH st1) as (results & Hres & Hlen).
      destruct (process_all w rows st1) as [res st2]; simpl in Hres; subst res.
      exists (result :: results). split; [reflexivity | simpl; now rewrite Hlen].
Qed.

(** ** C10: frame of the enrichment *)

(** C10.  A row that [process_song] returns has the [id], [title], [tag],
    [artist] and [lyrics] of the row it was given; only [about_section],
    which is [None] or a text, and [topic], which is a label, are set. *)
Theorem process_song_frame
  (w : world) (row enriched : Series.t) (st : state)
  (Hreturned : fst (process_song w row st) = Ok (Some enriched)) :
  Series.id enriched = Series.id row
  /\ Series.title enriched = Series.title row
  /\ Series.tag enriched = Series.tag row
  /\ Series.artist enriched = Series.artist row
  /\ Series.lyrics enriched = Series.lyrics row
  /\ (Series.about_section enriched = VNone
      \/ exists text, Series.about_section enriched = VStr text)
  /\ exists label, Series.topic enriched = Some (VStr label).
Proof.
  rewrite process_song_run, process_song_try_run in Hreturned.
  destruct (invalid_title (Series.title row)); [discriminate|].
  destruct (get_about_section w (Series.artist row) (Series.title row) st)
    as [[about_section|e] st1]; [|discriminate].
  destruct (assign_columns row about_section) as [r|e] eqn:He; [|discriminate].
  simpl in Hreturned. injection Hreturned as <-.
  eapply assign_columns_frame; eassumption.
Qed.

Example love_song_enriched :
  fst (process_song genius_world love_song initial)
  = Ok (Some (Series.set_topic
                (Series.set_about_section love_song
                   (VStr "A song about love  and heart"))
                (VStr "love")))
  /\ lastfm_calls (events (snd (process_song genius_world love_song initial)))
     = 0.
Proof. split; reflexivity. Qed.

Lemma process_song_frame_witness :
  fst (process_song genius_world love_song initial)
  = Ok (Some (Series.set_topic
                (Series.set_about_section love_song
                   (VStr "A song about love  and heart"))
                (VStr "love")))
  /\ Series.lyrics
       (Series.set_topic
          (Series.set_about_section love_song
             (VStr "A song about love  and heart"))
          (VStr "love"))
     = Series.lyrics love_song.
Proof.
  split; [reflexivity|].
  apply (process_song_frame genius_world love_song _ initial). reflexivity.
Defined.

(** ** C3: the filter *)

Lemma ne_str_neq (v : value) (s : string) :
  Value.ne_str v s = true <-> v <> VStr s.
Proof.
  destruct v; simpl; try (split; [discriminate | reflexivity]).
  rewrite negb_true_iff, String.eqb_neq. split; congruence.
Qed.

Lemma ne_str_sentinel (v : value) :
  Value.ne_str v sentinel = negb (is_sentinel v).
Proof. destruct v; reflexivity. Qed.

(** C3.  Line 150 drops exactly the [None] entries and the rows whose
    [about_section] is the sentinel: a row is in [matches results] exactly
    when it is an entry of [results] and its [about_section] is not the
    sentinel, and the kept rows are the surviving entries as they were, in
    their order and number. *)
Theorem matches_drops_none_and_sentinel (results : list (option Series.t)) :
  (forall row,
      In row (matches results)
      <-> In (Some row) results
          /\ Series.about_section row <> VStr sentinel)
  /\ map Some (matches results) = filter survives results.
Proof.
  split.
  - intros row. induction results as [|[r|] results IH]; simpl.
    + tauto.
    + destruct (Value.ne_str (Series.about_section r) sentinel) eqn:E;
        simpl; rewrite IH.
      * apply ne_str_neq in E. split.
        -- intros [<- | [H1 H2]]; auto.
        -- intros [[H | H] H2]; [left; congruence | auto].
      * assert (Hr : Series.about_section r = VStr sentinel).
        { destruct (Series.about_section r); try discriminate.
          simpl in E. apply negb_false_iff, String.eqb_eq in E. congruence. }
        split; [intros [H1 H2]; auto|].
        intros [[H | H] H2]; [congruence | auto].
    + rewrite IH. split; [intros [H1 H2]; auto|].
      intros [[H | H] H2]; [discriminate | auto].
  - induction results as [|[r|] results IH]; simpl; [reflexivity| |exact IH].
    rewrite ne_str_sentinel.
    destruct (is_sentinel (Series.about_section r)); simpl; now rewrite IH.
Qed.

(** ** C2: an output row without about-text *)

(** C2, at a row the filter lets through with a null [about_section]: Genius
    has no hit and Last.fm answers with an empty wiki content, so
    [process_song] returns the row with [about_section] set to [None], and
    line 150, which compares with the sentinel only, keeps it. *)
Theorem matches_keeps_row_without_about_section :
  exists enriched,
    fst (process_all empty_wiki_world [love_song] initial) = Ok [Some enriched]
    /\ Series.about_section enriched = VNone
    /\ matches [Some enriched] = [enriched].
Proof. eexists. split; [reflexivity|]. split; reflexivity. Qed.

(** ** C9: the sentinel and the normaliser *)

Lemma get_about_section_primary (w : world) (artist title : value) (st : state) :
  get_about_section w artist title st
  = match primary w artist title st with
    | (Ok text, st1) =>
        if Value.truthy text then (Ok text, st1)
        else get_lastfm_about w artist title st1
    | (Raise e, st1) => (Raise e, st1)
    end.
Proof.
  unfold get_about_section, primary, bind.
  destruct (search_song w title artist st) as [[song_url|e] st1];
    [|reflexivity].
  destruct (Value.truthy song_url); [|reflexivity].
  destruct (get_genius_about w song_url st1) as [[text|e] st2];
    [|reflexivity].
  destruct (Value.truthy text); reflexivity.
Qed.

Lemma lastfm_unavailable_sentinel
  (w : world) (artist title v : value) (st : state) :
  lastfm_found (lastfm_answer w artist title st) = None ->
  fst (get_lastfm_about w artist title st) = Ok v ->
  v = VStr sentinel.
Proof.
  rewrite get_lastfm_about_run. unfold lastfm_found, lastfm_answer.
  destruct (requests_get w lastfm_base_url (LastfmTrackInfo artist title) st)
    as [[r|x] st1]; cbv zeta; simpl.
  2: { destruct (is_request_exception w x); simpl; congruence. }
  destruct (status_code r =? 200)%Z; simpl; [|congruence].
  destruct (json r) as [data|].
  - destruct (wiki_content data) as [[content|]|e]; simpl; try congruence.
    destruct (is_request_exception w e); simpl; congruence.
  - destruct (json_error_is_request_exception w); simpl; congruence.
Qed.

Lemma assign_columns_about_section (row enriched : Series.t) (about_section : value) :
  assign_columns row about_section = Ok enriched ->
  Series.about_section enriched
  = match about_section with
    | VStr text =>
        if (text =? EmptyString)%string then VNone else VStr (replace_separators text)
    | _ => VNone
    end.
Proof.
  unfold assign_columns, bindR, preprocess_text.
  destruct about_section as [| b | z | | text | items | entries]; simpl;
    try destruct b; try destruct (z =? 0)%Z; try destruct items;
    try destruct entries; try destruct (text =? EmptyString)%string; simpl;
    try discriminate;
    repeat match goal with
           | |- context [Value.add_str ?a ?b] => destruct (Value.add_str a b)
           | |- context [Value.str_add ?a ?b] => destruct (Value.str_add a b)
           end;
    try discriminate; intros [= <-]; reflexivity.
Qed.

Lemma process_song_returned
  (w : world) (row enriched : Series.t) (st : state) :
  fst (process_song w row st) = Ok (Some enriched) ->
  exists about_section,
    fst (get_about_section w (Series.artist row) (Series.title row) st)
    = Ok about_section
    /\ assign_columns row about_section = Ok enriched.
Proof.
  rewrite process_song_run, process_song_try_run.
  destruct (invalid_title (Series.title row)); [discriminate|].
  destruct (get_about_section w (Series.artist row) (Series.title row) st)
    as [[about_section|e] st1]; [|discriminate].
  destruct (assign_columns row about_section) as [r|e] eqn:He; [|discriminate].
  simpl. intros [= <-]. eauto.
Qed.

Lemma is_sentinel_eq (v : value) : is_sentinel v = true <-> v = VStr sentinel.
Proof.
  destruct v; simpl; try (split; discriminate).
  rewrite String.eqb_eq. split; congruence.
Qed.

(** C9, as the code has it.  The sentinel is a fixed point of
    [preprocess_text]; hence a row that [process_song] returns when both
    sources were unavailable carries the sentinel as its [about_section]
    and line 150 drops it.  In general the rows that the comparison with the
    sentinel drops are those whose resolved text normalises to the
    sentinel. *)
Theorem sentinel_survives_normalization
  (w : world) (row enriched : Series.t) (st : state)
  (Hreturned : fst (process_song w row st) = Ok (Some enriched))
  (Hunavailable : both_unavailable w row st) :
  preprocess_text (VStr sentinel) = Ok (VStr sentinel)
  /\ Series.about_section enriched = VStr sentinel
  /\ matches [Some enriched] = []
  /\ forall (w' : world) (row' enriched' : Series.t) (st' : state),
       fst (process_song w' row' st') = Ok (Some enriched') ->
       (is_sentinel (Series.about_section enriched') = true
        <-> exists text,
              fst (get_about_section w' (Series.artist row')
                     (Series.title row') st') = Ok (VStr text)
              /\ replace_separators text = sentinel).
Proof.
  split; [reflexivity|].
  assert (Habout : Series.about_section enriched = VStr sentinel).
  { destruct (process_song_returned _ _ _ _ Hreturned) as (about & Hget & He).
    destruct Hunavailable as (nothing & st1 & Hprimary & Hfalsy & Hfound).
    rewrite get_about_section_primary, Hprimary, Hfalsy in Hget.
    apply (lastfm_unavailable_sentinel _ _ _ _ _ Hfound) in Hget. subst about.
    now rewrite (assign_columns_about_section _ _ _ He). }
  split; [exact Habout|]. split.
  - simpl. now rewrite Habout.
  - intros w' row' enriched' st' Hreturned'.
    destruct (process_song_returned _ _ _ _ Hreturned') as (about & Hget & He).
    rewrite Hget, (assign_columns_about_section _ _ _ He), is_sentinel_eq.
    destruct about as [| | | |text| |];
      try (split; [discriminate | intros (t & [=] & _)]).
    destruct (text =? EmptyString)%string eqn:Hempty.
    + apply String.eqb_eq in Hempty. subst text. split; [discriminate|].
      intros (t & [= <-] & H). discriminate.
    + split.
      * intros [= H]. eauto.
      * intros (t & [= <-] & H). now rewrite H.
Qed.

Lemma sentinel_survives_normalization_witness :
  both_unavailable (status_world 404) love_song initial
  /\ fst (process_song (status_world 404) love_song initial)
     = Ok (Some (Series.set_topic
                   (Series.set_about_section love_song (VStr sentinel))
                   (VStr "other")))
  /\ matches [Some (Series.set_topic
                      (Series.set_about_section love_song (VStr sentinel))
                      (VStr "other"))]
     = [].
Proof.
  assert (Hunavailable : both_unavailable (status_world 404) love_song initial).
  { exists VNone. eexists. split; [reflexivity|]. split; reflexivity. }
  split; [exact Hunavailable|]. split; [reflexivity|].
  refine (proj1 (proj2 (proj2 (sentinel_survives_normalization
                                 (status_world 404) love_song _ initial
                                 _ Hunavailable)))).
  reflexivity.
Defined.

(** The claim C9 as it was stated fails: in [comma_world] Last.fm has a
    wiki content, so the sources were not both unavailable, and yet the
    normalised text is the sentinel and line 150 drops the row. *)
Lemma sentinel_check_drops_found_text :
  exists enriched,
    fst (process_song comma_world love_song initial) = Ok (Some enriched)
    /\ Series.about_section enriched = VStr sentinel
    /\ matches [Some enriched] = []
    /\ ~ both_unavailable comma_world love_song initial.
Proof.
  eexists. split; [reflexivity|]. split; [reflexivity|].
  split; [reflexivity|].
  intros (nothing & st1 & Hprimary & _ & Hfound).
  vm_compute in Hprimary. injection Hprimary as <- <-.
  vm_compute in Hfound. discriminate.
Qed.

(** * Further properties of the program *)

(** ** The search for a hit *)

Lemma lower_char_idempotent (c : ascii) :
  Py.lower_char (Py.lower_char c) = Py.lower_char c.
Proof.
  destruct c as [[|] [|] [|] [|] [|] [|] [|] [|]]; reflexivity.
Qed.

Lemma lower_idempotent (s : string) : Py.lower (Py.lower s) = Py.lower s.
Proof.
  induction s as [|c s IH]; simpl; [reflexivity|].
  now rewrite lower_char_idempotent, IH.
Qed.

Lemma search_hits_cons_hit (song_title artist_name : string) (h : hit)
  (rest : list value) :
  search_hits (VStr song_title) (VStr artist_name) (hit_value h :: rest)
  = if hit_matches song_title artist_name h then Ok (Some (VStr (hit_url h)))
    else search_hits (VStr song_title) (VStr artist_name) rest.
Proof.
  unfold hit_matches. cbn [search_hits]. unfold hit_value. simpl.
  destruct (Py.contains (Py.lower song_title) (Py.lower (hit_title h)));
    simpl; [|reflexivity].
  destruct (Py.contains (Py.lower artist_name) (Py.lower (hit_artist h)));
    reflexivity.
Qed.

Lemma search_hits_first_match
  (song_title artist_name : string) (hits : list hit) :
  search_hits (VStr song_title) (VStr artist_name) (map hit_value hits)
  = Ok (option_map (fun h => VStr (hit_url h))
          (find (hit_matches song_title artist_name) hits)).
Proof.
  induction hits as [|h hits IH]; [reflexivity|].
  cbn [map find]. rewrite search_hits_cons_hit.
  destruct (hit_matches song_title artist_name h); [reflexivity | exact IH].
Qed.

(** An answer that [is_retry] lets through ends the loop at once. *)
Lemma urlopen_answered (w : world) (retries : Retry) (remaining errors : nat)
  (e : endpoint) (r : response) (st : state) :
  transport w (events st) e = Responded r ->
  is_retry retries remaining r = false ->
  urlopen w retries remaining errors e st
  = (Ok (Final r), record [Attempt e] st).
Proof.
  intros Hanswer Hno. rewrite urlopen_step. cbv zeta.
  now rewrite Hanswer, Hno.
Qed.

(** A request of a session that is answered at once with a response that
    is neither retried nor followed returns it after one attempt. *)
Lemma Session_get_responded (w : world) (adapters : scheme -> Retry)
  (url : string) (e : endpoint) (s : scheme) (r : response) (st : state) :
  prepare w url = Sendable s ->
  transport w (events st) e = Responded r ->
  is_retry (adapters s) (total (adapters s)) r = false ->
  Session_get w adapters url e st = (Ok r, record [Attempt e] st).
Proof.
  intros Hurl Hanswer Hno. unfold Session_get, HTTPAdapter_send.
  rewrite Hurl. unfold bind.
  now rewrite (urlopen_answered _ _ _ _ _ r _ Hanswer Hno).
Qed.

Lemma ok_is_not_retried (remaining : nat) (r : response) :
  status_code r = 200%Z -> is_retry retry_strategy remaining r = false.
Proof.
  intros Hstatus. unfold is_retry. rewrite Hstatus. simpl.
  now rewrite andb_false_r.
Qed.

(** X1.  When the search is answered with status 200 and hits that have
    their title, artist and url, [search_song] makes one attempt and
    returns the url of the first hit, in the order of the response, whose
    lower-cased title contains the lower-cased query title and whose
    lower-cased artist contains the lower-cased query artist; it returns
    [None] when no hit passes. *)
Theorem search_song_first_match
  (w : world) (song_title artist_name : string) (hits : list hit)
  (r : response) (st : state)
  (Hanswer : transport w (events st)
               (GeniusSearch (VStr song_title) (VStr artist_name))
             = Responded r)
  (Hstatus : status_code r = 200%Z)
  (Hbody : json r = Some (hits_body hits)) :
  search_song w (VStr song_title) (VStr artist_name) st
  = (Ok match find (hit_matches song_title artist_name) hits with
        | Some h => VStr (hit_url h)
        | None => VNone
        end,
     record [Attempt (GeniusSearch (VStr song_title) (VStr artist_name))] st).
Proof.
  unfold search_song, session_get.
  unfold bind at 1, try_except, bind at 1.
  rewrite (Session_get_responded w session_adapters genius_base_url _ Https r
             st (prepare_genius w) Hanswer (ok_is_not_retried _ r Hstatus)).
  rewrite Hstatus. change (200 =? 200)%Z with true. cbv iota.
  unfold response_json. rewrite Hbody.
  unfold bind, ret, lift.
  change (path (hits_body hits) ["response"; "hits"]%string)
    with (@Ok value (VList (map hit_value hits))).
  cbn [Value.iter]. rewrite search_hits_first_match.
  destruct (find (hit_matches song_title artist_name) hits); reflexivity.
Qed.

Lemma search_song_first_match_witness :
  search_song genius_world (VStr "love song") (VStr "ARTIST") initial
  = (Ok (VStr "https://genius.com/love-song"),
     record [Attempt (GeniusSearch (VStr "love song") (VStr "ARTIST"))]
       initial).
Proof.
  exact (search_song_first_match genius_world "love song" "ARTIST"
           [{| hit_title := "Love Song"; hit_artist := "Artist A";
               hit_url := "https://genius.com/love-song" |}]
           _ initial eq_refl eq_refl eq_refl).
Defined.

(** X2.  The case of the query does not matter to the loop, whatever the
    hits are, well formed or not: the query and its lower-cased form give
    the same result or the same error. *)
Theorem search_hits_query_case
  (song_title artist_name : string) (results : list value) :
  search_hits (VStr (Py.lower song_title)) (VStr (Py.lower artist_name))
    results
  = search_hits (VStr song_title) (VStr artist_name) results.
Proof.
  induction results as [|hit rest IH]; [reflexivity|].
  cbn [search_hits]. unfold bindR.
  destruct (path hit ["result"; "title"]%string) as [t|e]; [|reflexivity].
  destruct (Value.lower t) as [hit_title|e]; [|reflexivity].
  destruct (path hit ["result"; "primary_artist"; "name"]%string) as [a|e];
    [|reflexivity].
  destruct (Value.lower a) as [hit_artist|e]; [|reflexivity].
  cbn [Value.lower]. rewrite !lower_idempotent, IH. reflexivity.
Qed.

(** ** Errors of the lookups *)

(** What a lookup raises is what its handler does not catch. *)
Lemma lookup_contains (w : world) (body : M (option value)) (default : value)
  (e : exn) (st : state) :
  fst ((returned <- try_except body (is_request_exception w)
                      log_request_failed;;
        or_else returned default) st) = Raise e ->
  fst (body st) = Raise e /\ is_request_exception w e = false.
Proof.
  unfold bind, try_except.
  destruct (body st) as [[returned|x] st1]; simpl.
  - destruct returned; discriminate.
  - destruct (is_request_exception w x) eqn:Hx; simpl; [discriminate|].
    intros [= <-]. auto.
Qed.

(** X3.  No request error leaves a lookup: what [search_song],
    [get_genius_about] and [get_lastfm_about] raise is never an error that
    [except requests.RequestException] catches; and what [get_genius_about]
    returns is [None] or a text. *)
Theorem lookups_contain_request_errors
  (w : world) (a b : value) (st : state) :
  (forall e, fst (search_song w a b st) = Raise e ->
             is_request_exception w e = false)
  /\ (forall e, fst (get_genius_about w a st) = Raise e ->
                is_request_exception w e = false)
  /\ (forall v, fst (get_genius_about w a st) = Ok v ->
                v = VNone \/ exists text, v = VStr text)
  /\ (forall e, fst (get_lastfm_about w a b st) = Raise e ->
                is_request_exception w e = false).
Proof.
  split; [|split; [|split]].
  - intros e H. apply lookup_contains in H. tauto.
  - intros e H. apply lookup_contains in H. tauto.
  - intros v. unfold get_genius_about, bind, try_except.
    destruct (session_get_page w a st) as [[r|x] st1]; simpl.
    + destruct (status_code r =? 200)%Z; simpl;
        [destruct (about_container r); simpl|]; intros [= <-]; eauto.
    + destruct (is_request_exception w x); simpl; [|discriminate].
      intros [= <-]. auto.
  - intros e H. apply lookup_contains in H. tauto.
Qed.

(** X4.  A hit url that requests refuses with a request error,
    [MissingSchema], [InvalidSchema] or [InvalidURL], as it does whatever
    is no text, costs no attempt: [get_genius_about] logs the request error
    and returns [None]. *)
Theorem get_genius_about_without_scheme
  (w : world) (song_url : value) (st : state)
  (Hrefused : forall url, song_url = VStr url ->
                prepare w url = RefusedRequest) :
  get_genius_about w song_url st
  = (Ok VNone, logged (LogError (RequestFailed RequestException)) st).
Proof.
  unfold get_genius_about, session_get_page, session_get, Session_get.
  destruct song_url as [| | | |url| |]; try reflexivity.
  rewrite (Hrefused url eq_refl). reflexivity.
Qed.

Lemma get_genius_about_without_scheme_witness :
  get_genius_about genius_world (VStr "genius.com/love-song") initial
  = (Ok VNone, logged (LogError (RequestFailed RequestException)) initial).
Proof.
  apply (get_genius_about_without_scheme genius_world
           (VStr "genius.com/love-song") initial).
  intros url [= <-]. reflexivity.
Defined.

(** ** The text of the page, normalised *)

Lemma replace_separators_app (a b : string) :
  replace_separators (a ++ b)%string
  = (replace_separators a ++ replace_separators b)%string.
Proof.
  induction a as [|c a IH]; [reflexivity|].
  change (String c a ++ b)%string with (String c (a ++ b)%string).
  rewrite !replace_separators_cons, IH. reflexivity.
Qed.

(** X5.  Line 58 joins the paragraphs of the page with line feeds and line
    88 turns these into spaces: the normalised text of a page is its
    paragraphs, each normalised, joined by one space. *)
Theorem preprocess_text_of_paragraphs (paragraphs : list string) :
  preprocess_text (VStr (Py.join newline paragraphs))
  = Ok (VStr (Py.join " " (map replace_separators paragraphs))).
Proof.
  rewrite preprocess_text_str. do 2 f_equal. unfold Py.join.
  induction paragraphs as [|p [|q rest] IH]; [reflexivity | reflexivity |].
  change (String.concat newline (p :: q :: rest))
    with (p ++ newline ++ String.concat newline (q :: rest))%string.
  change (String.concat " " (map replace_separators (p :: q :: rest)))
    with (replace_separators p ++ " "
          ++ String.concat " " (map replace_separators (q :: rest)))%string.
  now rewrite !replace_separators_app, IH.
Qed.

(** ** What a row costs *)

Section Costs.

Variable m : list event -> nat.
Hypothesis m_nil : m [] = 0.
Hypothesis m_app : forall a b, m (a ++ b) = m a + m b.

Lemma costs_silent {A : Type} (c : M A) (bound : nat) :
  silent c -> costs m c bound.
Proof.
  intros Hc. apply silent_traced; [rewrite m_nil; lia | exact Hc].
Qed.

Lemma costs_weaken {A : Type} (c : M A) (p q : nat) :
  p <= q -> costs m c p -> costs m c q.
Proof using Type.
  intros Hpq. apply traced_weaken. intros new H.
  exact (Nat.le_trans _ _ _ H Hpq).
Qed.

Lemma costs_bind {A B : Type} (c : M A) (k : A -> M B) (p q : nat) :
  costs m c p -> (forall a, costs m (k a) q) -> costs m (bind c k) (p + q).
Proof.
  intros Hc Hk st. unfold bind. destruct (Hc st) as (n1 & E1 & H1).
  destruct (c st) as [[a|e] st1]; simpl in E1.
  - destruct (Hk a st1) as (n2 & E2 & H2). exists (n1 ++ n2).
    rewrite E2, E1, app_assoc, m_app. split; [reflexivity | lia].
  - exists n1. simpl. split; [exact E1 | lia].
Qed.

Lemma costs_try_except {A : Type} (body : M A) (catches : exn -> bool)
  (handler : exn -> M A) (p : nat) :
  costs m body p -> (forall e, silent (handler e)) ->
  costs m (try_except body catches handler) p.
Proof. apply traced_try_except_silent. Qed.

Lemma costs_bind_silent {A B : Type} (c : M A) (k : A -> M B) (p : nat) :
  costs m c p -> (forall a, silent (k a)) -> costs m (bind c k) p.
Proof. apply traced_bind_silent. Qed.

(** The loop costs what its attempts and the sleeps between them cost. *)
Lemma urlopen_costs (w : world) (retries : Retry) (e : endpoint)
  (a : nat) (s : nat -> nat) :
  m [Attempt e] = a ->
  (forall errors, m (slept retries errors None) <= s errors) ->
  (forall errors history r,
      transport w history e = Responded r ->
      m (slept retries errors (Some r)) <= s errors) ->
  forall remaining errors,
    costs m (urlopen w retries remaining errors e)
      (urlopen_bound a s remaining errors).
Proof.
  intros Ha Hnone Hsome.
  assert (Hone : forall (x : result sent) st remaining errors,
            exists new,
              events (snd (x, record [Attempt e] st)) = events st ++ new
              /\ m new <= urlopen_bound a s remaining errors).
  { intros x st remaining errors. exists [Attempt e].
    split; [reflexivity|]. rewrite Ha.
    destruct remaining; cbn [urlopen_bound]; lia. }
  induction remaining as [|remaining IH]; intros errors st;
    rewrite urlopen_step; cbv zeta.
  - destruct (transport w (events st) e) as [|r|to|]; try apply Hone.
    destruct (is_retry retries 0 r); apply Hone.
  - assert (Hretry : forall r,
      m (slept retries (S errors) r) <= s (S errors) ->
      exists new,
        events (snd (urlopen w retries remaining (S errors) e
                       (record (slept retries (S errors) r)
                          (record [Attempt e] st))))
        = events st ++ new
        /\ m new <= urlopen_bound a s (S remaining) errors).
    { intros r Hr. rewrite record_record.
      destruct (IH (S errors)
                  (record ([Attempt e] ++ slept retries (S errors) r) st))
        as (new & E & Hnew).
      exists (([Attempt e] ++ slept retries (S errors) r) ++ new).
      split; [rewrite E; simpl; now rewrite <- !app_assoc|].
      rewrite !m_app, Ha. cbn [urlopen_bound]. lia. }
    destruct (transport w (events st) e) as [|r|to|] eqn:Hanswer;
      [apply Hretry, Hnone | | apply Hone | apply Hone].
    destruct (is_retry retries (S remaining) r);
      [apply Hretry, (Hsome _ _ _ Hanswer) | apply Hone].
Qed.

(** Without redirects a request of a session costs what its adapter
    costs. *)
Lemma Session_get_costs (w : world) (adapters : scheme -> Retry)
  (url : string) (e : endpoint) (bound : nat) :
  no_redirect w ->
  (forall s, costs m (HTTPAdapter_send w (adapters s) e) bound) ->
  costs m (Session_get w adapters url e) bound.
Proof.
  intros Hw Hsend st. unfold Session_get.
  destruct (prepare w url) as [s| |];
    try (exists []; rewrite app_nil_r, m_nil; split; [reflexivity | lia]).
  unfold bind. destruct (Hsend s st) as (new & E & H).
  destruct (HTTPAdapter_send w (adapters s) e st) as [[resp|x] st1] eqn:Hrun;
    simpl in E; [|eauto].
  destruct resp as [r|to|]; [eauto | | eauto].
  exfalso. unfold HTTPAdapter_send in Hrun.
  destruct (urlopen_moved w (adapters s) e to (total (adapters s)) 0 st)
    as (history & Hanswer); [now rewrite Hrun|].
  exact (Hw _ _ _ Hanswer).
Qed.

(** Following redirects costs at most what [max_redirects] hops cost. *)
Lemma resolve_redirects_costs (w : world) (adapters : scheme -> Retry)
  (hop : nat) :
  (forall s url, costs m (HTTPAdapter_send w (adapters s) (Location url)) hop) ->
  forall (max_redirects : nat) (resp : sent),
    costs m (resolve_redirects w adapters max_redirects resp)
      (max_redirects * hop).
Proof.
  intros Hhop.
  induction max_redirects as [|redirects IH]; intros resp;
    destruct resp as [r|[|[s| |] url]|]; cbn [resolve_redirects];
    try solve [apply costs_silent; auto with silent].
  change (S redirects * hop) with (hop + redirects * hop).
  apply costs_bind; [apply Hhop | exact IH].
Qed.

(** A request of a session costs at most its first send and the hops of
    its redirects. *)
Lemma Session_get_costs_redirects (w : world) (adapters : scheme -> Retry)
  (url : string) (e : endpoint) (first hop : nat) :
  (forall s, costs m (HTTPAdapter_send w (adapters s) e) first) ->
  (forall s url', costs m (HTTPAdapter_send w (adapters s) (Location url')) hop) ->
  costs m (Session_get w adapters url e)
    (first + DEFAULT_REDIRECT_LIMIT * hop).
Proof.
  intros Hfirst Hhop. unfold Session_get.
  destruct (prepare w url) as [s| |];
    try solve [apply costs_silent; auto with silent].
  apply costs_bind; [apply Hfirst|].
  intros resp. now apply resolve_redirects_costs.
Qed.

Variable w : world.
Variables search page lastfm : nat.
Hypothesis search_costs :
  forall t a, costs m (search_song w t a) search.
Hypothesis page_costs :
  forall url, costs m (get_genius_about w url) page.
Hypothesis lastfm_costs :
  forall a t, costs m (get_lastfm_about w a t) lastfm.

Lemma get_about_section_costs (artist title : value) :
  costs m (get_about_section w artist title) (search + (page + lastfm)).
Proof.
  unfold get_about_section. apply costs_bind; [apply search_costs|].
  intros song_url. destruct (Value.truthy song_url).
  - apply costs_bind; [apply page_costs|].
    intros about_section. destruct (Value.truthy about_section).
    + apply costs_silent, silent_ret.
    + apply lastfm_costs.
  - eapply costs_weaken; [|apply lastfm_costs]. lia.
Qed.

Lemma process_song_costs (row : Series.t) :
  costs m (process_song w row) (search + (page + lastfm)).
Proof.
  unfold process_song. apply costs_try_except; [|intros; silence].
  apply costs_bind_silent; [|intros; silence].
  unfold process_song_try.
  replace (search + (page + lastfm)) with (0 + (search + (page + lastfm)))
    by lia.
  apply costs_bind.
  { apply costs_silent. destruct (invalid_title (Series.title row));
      auto with silent. }
  intros _. apply costs_bind_silent; [apply get_about_section_costs|].
  intros about_section. silence.
Qed.

End Costs.

Lemma attempts_app (a b : list event) :
  attempts (a ++ b) = attempts a + attempts b.
Proof.
  unfold attempts. induction a as [|[e|seconds] a IH]; simpl; auto.
Qed.

Lemma slept_for_app (a b : list event) :
  slept_for (a ++ b) = slept_for a + slept_for b.
Proof.
  unfold slept_for. induction a as [|[e|seconds] a IH]; simpl; auto.
  rewrite IH. lia.
Qed.

Lemma attempts_slept (retries : Retry) (errors : nat) (r : option response) :
  attempts (slept retries errors r) = 0.
Proof.
  unfold slept.
  destruct (get_backoff_time retries errors <=? 0)%Z;
    destruct r as [resp|]; try destruct (retry_after resp) as [seconds|];
    try destruct (0 <? seconds)%Z; reflexivity.
Qed.

Lemma slept_for_backoff (retries : Retry) (errors : nat) :
  slept_for (slept retries errors None) = backoff_seconds retries errors.
Proof.
  unfold slept, backoff_seconds, slept_for.
  destruct (get_backoff_time retries errors <=? 0)%Z eqn:E; simpl; [|lia].
  apply Z.leb_le in E. lia.
Qed.

Lemma urlopen_bound_attempts (remaining errors : nat) :
  urlopen_bound 1 (fun _ => 0) remaining errors = S remaining.
Proof.
  revert errors; induction remaining as [|remaining IH]; intros errors;
    cbn [urlopen_bound]; [lia | rewrite IH; lia].
Qed.

Lemma session_get_attempts (w : world) (url : string) (e : endpoint) :
  no_redirect w -> costs attempts (session_get w url e) 6.
Proof.
  intros Hw. apply Session_get_costs; auto using attempts_app.
  intros [|]; unfold HTTPAdapter_send, session_adapters.
  - change 6 with (urlopen_bound 1 (fun _ => 0) 5 0).
    apply urlopen_costs; auto using attempts_app; intros;
      rewrite attempts_slept; lia.
  - apply costs_weaken with (p := urlopen_bound 1 (fun _ => 0) 0 0);
      [simpl; lia|].
    apply urlopen_costs; auto using attempts_app; intros;
      rewrite attempts_slept; lia.
Qed.

Lemma search_song_attempts_at_most (w : world) (song_title artist_name : value) :
  no_redirect w -> costs attempts (search_song w song_title artist_name) 6.
Proof.
  intros Hw. unfold search_song.
  apply traced_bind_silent; [|intros; silence].
  apply traced_try_except_silent; [|intros; silence].
  apply traced_bind_silent; [|intros; silence].
  apply session_get_attempts, Hw.
Qed.

Lemma get_genius_about_attempts (w : world) (song_url : value) :
  no_redirect w -> costs attempts (get_genius_about w song_url) 6.
Proof.
  intros Hw. unfold get_genius_about.
  apply traced_bind_silent; [|intros; silence].
  apply traced_try_except_silent; [|intros; silence].
  apply traced_bind_silent; [|intros; silence].
  unfold session_get_page.
  destruct song_url;
    try (apply costs_silent; [reflexivity | apply silent_raise]).
  apply session_get_attempts, Hw.
Qed.

(** Without redirects [get_lastfm_about] makes one attempt, whatever the
    answer. *)
Lemma get_lastfm_about_one_attempt (w : world) (artist title : value)
  (st : state) :
  no_redirect w ->
  events (snd (get_lastfm_about w artist title st))
  = events st ++ [Attempt (LastfmTrackInfo artist title)].
Proof.
  intros Hw. rewrite get_lastfm_about_events.
  unfold requests_get, Session_get. rewrite prepare_lastfm.
  unfold bind, default_adapters. rewrite default_send_run.
  destruct (transport w (events st) (LastfmTrackInfo artist title))
    as [|r|to|] eqn:Hanswer; try reflexivity.
  exfalso. exact (Hw _ _ _ Hanswer).
Qed.

Lemma get_lastfm_about_costs (w : world) (artist title : value)
  (m : list event -> nat) (bound : nat) :
  no_redirect w ->
  m [Attempt (LastfmTrackInfo artist title)] <= bound ->
  costs m (get_lastfm_about w artist title) bound.
Proof.
  intros Hw H st. exists [Attempt (LastfmTrackInfo artist title)].
  split; [now apply get_lastfm_about_one_attempt | exact H].
Qed.

Lemma lastfm_calls_nil_app :
  lastfm_calls [] = 0
  /\ forall a b, lastfm_calls (a ++ b) = lastfm_calls a + lastfm_calls b.
Proof. split; [reflexivity | apply lastfm_calls_app]. Qed.

(** X6.  When no answer is a redirect, a row costs at most 13 attempts, 6
    for the search, 6 for the page and 1 for Last.fm, whatever the network
    answers besides, and Last.fm is attempted at most once. *)
Theorem process_song_attempts (w : world) (row : Series.t) (st : state)
  (Hdirect : no_redirect w) :
  exists new,
    events (snd (process_song w row st)) = events st ++ new
    /\ attempts new <= 13
    /\ lastfm_calls new <= 1.
Proof.
  destruct (process_song_costs attempts eq_refl attempts_app w 6 6 1
              (fun t a => search_song_attempts_at_most w t a Hdirect)
              (fun url => get_genius_about_attempts w url Hdirect)
              (fun a t => get_lastfm_about_costs w a t attempts 1 Hdirect
                            (le_n 1))
              row st) as (new & E & Hattempts).
  destruct (process_song_costs lastfm_calls eq_refl lastfm_calls_app w 0 0 1)
    with (row := row) (st := st) as (new' & E' & Hcalls).
  - intros t a st0.
    destruct (search_song_trace w t a st0) as (n & En & rest & -> & Hrest).
    exists (Attempt (GeniusSearch t a) :: rest). split; [exact En|].
    change (lastfm_calls rest <= 0). lia.
  - intros url st0.
    destruct (get_genius_about_trace w url st0) as (n & En & Hn).
    exists n. split; [exact En | lia].
  - intros a t. apply get_lastfm_about_costs; [exact Hdirect | apply le_n].
  - rewrite E in E'. apply app_inv_head in E'. subst new'.
    exists new. simpl in *. auto.
Qed.

Lemma process_song_attempts_witness :
  no_redirect (status_world 503)
  /\ exists new,
       events (snd (process_song (status_world 503) love_song initial))
       = events initial ++ new
       /\ attempts new <= 13
       /\ lastfm_calls new <= 1.
Proof.
  assert (Hdirect : no_redirect (status_world 503))
    by (intros history e to; discriminate).
  split; [exact Hdirect|].
  exact (process_song_attempts (status_world 503) love_song initial Hdirect).
Defined.

(** X7.  When no answer is a redirect, [search_song] makes at least one and
    at most six attempts, whatever the network answers besides. *)
Theorem search_song_attempts
  (w : world) (song_title artist_name : value) (st : state)
  (Hdirect : no_redirect w) :
  exists new,
    events (snd (search_song w song_title artist_name st)) = events st ++ new
    /\ 1 <= attempts new <= 6.
Proof.
  destruct (search_song_attempts_at_most w song_title artist_name Hdirect st)
    as (new & E & Hmost).
  destruct (search_song_trace w song_title artist_name st)
    as (new' & E' & rest & -> & _).
  rewrite E in E'. apply app_inv_head in E'. subst new.
  eexists. split; [exact E|]. split; [|exact Hmost].
  unfold attempts. simpl. lia.
Qed.

Lemma search_song_attempts_witness :
  no_redirect (status_world 503)
  /\ exists new,
       events (snd (search_song (status_world 503) (VStr "Love Song")
                      (VStr "Artist A") initial))
       = events initial ++ new
       /\ 1 <= attempts new <= 6.
Proof.
  assert (Hdirect : no_redirect (status_world 503))
    by (intros history e to; discriminate).
  split; [exact Hdirect|].
  exact (search_song_attempts (status_world 503) (VStr "Love Song")
           (VStr "Artist A") initial Hdirect).
Defined.

Lemma session_get_sleeps (w : world) (url : string) (e : endpoint) :
  no_retry_after w -> no_redirect w ->
  costs slept_for (session_get w url e) 30.
Proof.
  intros Hw Hdirect.
  assert (Hsome : forall retries errors history r,
            transport w history e = Responded r ->
            slept_for (slept retries errors (Some r))
            <= backoff_seconds retries errors).
  { intros retries errors history r Hanswer.
    rewrite (slept_no_header _ _ r (Hw _ _ _ Hanswer)), slept_for_backoff.
    apply le_n. }
  assert (Hnone : forall retries errors,
            slept_for (slept retries errors None)
            <= backoff_seconds retries errors).
  { intros. rewrite slept_for_backoff. apply le_n. }
  apply Session_get_costs; auto using slept_for_app.
  intros [|]; unfold HTTPAdapter_send, session_adapters.
  - change 30 with (urlopen_bound 0 (backoff_seconds retry_strategy) 5 0).
    apply urlopen_costs; eauto using slept_for_app.
  - apply costs_weaken
      with (p := urlopen_bound 0 (backoff_seconds default_retries) 0 0);
      [simpl; lia|].
    apply urlopen_costs; eauto using slept_for_app.
Qed.

Lemma search_song_sleeps (w : world) (song_title artist_name : value) :
  no_retry_after w -> no_redirect w ->
  costs slept_for (search_song w song_title artist_name) 30.
Proof.
  intros Hw Hdirect. unfold search_song.
  apply traced_bind_silent; [|intros; silence].
  apply traced_try_except_silent; [|intros; silence].
  apply traced_bind_silent; [|intros; silence].
  apply session_get_sleeps; assumption.
Qed.

Lemma get_genius_about_sleeps (w : world) (song_url : value) :
  no_retry_after w -> no_redirect w ->
  costs slept_for (get_genius_about w song_url) 30.
Proof.
  intros Hw Hdirect. unfold get_genius_about.
  apply traced_bind_silent; [|intros; silence].
  apply traced_try_except_silent; [|intros; silence].
  apply traced_bind_silent; [|intros; silence].
  unfold session_get_page.
  destruct song_url;
    try (apply costs_silent; [reflexivity | apply silent_raise]).
  apply session_get_sleeps; assumption.
Qed.

(** X8.  When no response carries a [Retry-After] header and no answer is
    a redirect, the backoff of [retry_strategy] makes a row sleep for at
    most 60 seconds: at most 2 + 4 + 8 + 16 for the search and as much for
    the page. *)
Theorem process_song_sleeps
  (w : world) (row : Series.t) (st : state)
  (Hheaders : no_retry_after w)
  (Hdirect : no_redirect w) :
  exists new,
    events (snd (process_song w row st)) = events st ++ new
    /\ slept_for new <= 60.
Proof.
  exact (process_song_costs slept_for eq_refl slept_for_app w 30 30 0
           (fun t a => search_song_sleeps w t a Hheaders Hdirect)
           (fun url => get_genius_about_sleeps w url Hheaders Hdirect)
           (fun a t => get_lastfm_about_costs w a t slept_for 0 Hdirect
                         (le_n 0))
           row st).
Qed.

Lemma process_song_sleeps_witness :
  no_retry_after (status_world 503)
  /\ no_redirect (status_world 503)
  /\ exists new,
       events (snd (process_song (status_world 503) love_song initial))
       = events initial ++ new
       /\ slept_for new <= 60.
Proof.
  assert (Hheaders : no_retry_after (status_world 503)).
  { intros history e r. simpl. intros [= <-]. reflexivity. }
  assert (Hdirect : no_redirect (status_world 503))
    by (intros history e to; discriminate).
  split; [exact Hheaders|]. split; [exact Hdirect|].
  exact (process_song_sleeps (status_world 503) love_song initial Hheaders
           Hdirect).
Defined.

(** ** What the session hands back *)

Lemma urlopen_returns (w : world) (retries : Retry) (e : endpoint)
  (r : response) :
  forall (remaining errors : nat) (st : state),
    fst (urlopen w retries remaining errors e st) = Ok (Final r) ->
    exists k, k <= remaining /\ is_retry retries k r = false.
Proof.
  induction remaining as [|remaining IH]; intros errors st;
    rewrite urlopen_step; cbv zeta;
    destruct (transport w (events st) e) as [|r'|to|]; try discriminate.
  - destruct (is_retry retries 0 r') eqn:Hr; simpl; [discriminate|].
    intros [= <-]. exists 0. auto.
  - intros H. apply IH in H. destruct H as (k & Hk & H). exists k. auto.
  - destruct (is_retry retries (S remaining) r') eqn:Hr; simpl.
    + intros H. apply IH in H. destruct H as (k & Hk & H). exists k. auto.
    + intros [= <-]. exists (S remaining). auto.
Qed.

(** X9.  When no answer is a redirect, a response that the session hands
    to the program over https never has a status of [status_forcelist]:
    such an answer is retried, or the request ends in an error; so
    [search_song] and [get_genius_about] never look at a 429, 500, 502, 503
    or 504 then. *)
Theorem session_get_returns_no_transient
  (w : world) (url : string) (e : endpoint) (r : response) (st : state)
  (Hdirect : no_redirect w)
  (Hhttps : prepare w url = Sendable Https)
  (Hreturned : fst (session_get w url e st) = Ok r) :
  ~ In (status_code r) (status_forcelist retry_strategy).
Proof.
  unfold session_get, Session_get, HTTPAdapter_send in Hreturned.
  rewrite Hhttps in Hreturned. unfold bind in Hreturned.
  destruct (urlopen w (session_adapters Https) (total (session_adapters Https))
              0 e st) as [[resp|x] st1] eqn:Hrun; [|discriminate].
  destruct resp as [r'|to|]; simpl in Hreturned.
  - injection Hreturned as ->.
    destruct (urlopen_returns w (session_adapters Https) e r
                (total (session_adapters Https)) 0 st) as (k & _ & Hk);
      [now rewrite Hrun|].
    intros Hin. change (session_adapters Https) with retry_strategy in Hk.
    now rewrite (transient_is_retry k r Hin) in Hk.
  - exfalso.
    destruct (urlopen_moved w (session_adapters Https) e to
                (total (session_adapters Https)) 0 st) as (history & Hanswer);
      [now rewrite Hrun|].
    exact (Hdirect _ _ _ Hanswer).
  - discriminate.
Qed.

Lemma session_get_returns_no_transient_witness :
  no_redirect (status_world 404)
  /\ fst (session_get (status_world 404) genius_base_url
            (GeniusSearch VNone VNone) initial)
     = Ok (status_response 404)
  /\ ~ In 404%Z (status_forcelist retry_strategy).
Proof.
  assert (Hdirect : no_redirect (status_world 404))
    by (intros history e to; discriminate).
  split; [exact Hdirect|]. split; [reflexivity|].
  exact (session_get_returns_no_transient (status_world 404)
           genius_base_url (GeniusSearch VNone VNone) (status_response 404)
           initial Hdirect eq_refl eq_refl).
Defined.

(** ** Redirects *)

(** X27.  A redirect takes a request of the session away from the
    retrying adapter when its target is an http URL: the target is asked
    through the adapter of ["http://"], which never retries, so whatever it
    answers, a 503 too, is handed to the program after one attempt on the
    endpoint and one on the target. *)
Theorem session_get_redirected_to_http
  (w : world) (url target_url : string) (e : endpoint) (r : response)
  (st : state)
  (Hurl : prepare w url = Sendable Https)
  (Hfirst : transport w (events st) e
            = Redirected (Target (Sendable Http) target_url))
  (Hnext : transport w (events st ++ [Attempt e]) (Location target_url)
           = Responded r) :
  session_get w url e st
  = (Ok r, record [Attempt e; Attempt (Location target_url)] st).
Proof.
  unfold session_get, Session_get, HTTPAdapter_send. rewrite Hurl.
  unfold bind at 1. rewrite urlopen_step. cbv zeta. rewrite Hfirst.
  change (resolve_redirects w session_adapters DEFAULT_REDIRECT_LIMIT
            (Moved (Target (Sendable Http) target_url)))
    with (next <- HTTPAdapter_send w default_retries (Location target_url);;
          resolve_redirects w session_adapters 29 next).
  unfold bind. rewrite default_send_run.
  change (events (record [Attempt e] st)) with (events st ++ [Attempt e]).
  rewrite Hnext, record_record. reflexivity.
Qed.

Lemma session_get_redirected_to_http_witness :
  session_get downgrade_world genius_base_url (GeniusSearch VNone VNone)
    initial
  = (Ok (status_response 503),
     record [Attempt (GeniusSearch VNone VNone);
             Attempt (Location "http://api.genius.com/search")] initial).
Proof.
  exact (session_get_redirected_to_http downgrade_world genius_base_url
           "http://api.genius.com/search" (GeniusSearch VNone VNone)
           (status_response 503) initial eq_refl eq_refl eq_refl).
Defined.

Lemma adapter_attempts (w : world) (s : scheme) (e : endpoint) :
  costs attempts (HTTPAdapter_send w (session_adapters s) e) 6.
Proof.
  destruct s; unfold HTTPAdapter_send, session_adapters.
  - change 6 with (urlopen_bound 1 (fun _ => 0) 5 0).
    apply urlopen_costs; auto using attempts_app; intros;
      rewrite attempts_slept; lia.
  - apply costs_weaken with (p := urlopen_bound 1 (fun _ => 0) 0 0);
      [simpl; lia|].
    apply urlopen_costs; auto using attempts_app; intros;
      rewrite attempts_slept; lia.
Qed.

Lemma default_adapter_attempts (w : world) (s : scheme) (e : endpoint) :
  costs attempts (HTTPAdapter_send w (default_adapters s) e) 1.
Proof.
  intros st. unfold default_adapters. rewrite default_send_run.
  exists [Attempt e]. split; [reflexivity | apply le_n].
Qed.

Lemma session_get_attempts_in_all (w : world) (url : string) (e : endpoint) :
  costs attempts (session_get w url e) 186.
Proof.
  change 186 with (6 + DEFAULT_REDIRECT_LIMIT * 6).
  apply Session_get_costs_redirects; auto using attempts_app;
    intros; apply adapter_attempts.
Qed.

Lemma get_lastfm_about_attempts_in_all (w : world) (artist title : value) :
  costs attempts (get_lastfm_about w artist title) 31.
Proof.
  intros st.
  destruct (Session_get_costs_redirects attempts eq_refl attempts_app w
              default_adapters lastfm_base_url
              (LastfmTrackInfo artist title) 1 1
              (fun s => default_adapter_attempts w s _)
              (fun s url => default_adapter_attempts w s _) st)
    as (new & E & H).
  exists new. rewrite get_lastfm_about_events. split; [exact E | exact H].
Qed.

(** Last.fm itself is asked at most once for a row. *)
Lemma process_song_lastfm_once (w : world) (row : Series.t) :
  costs lastfm_calls (process_song w row) 1.
Proof.
  apply (process_song_costs lastfm_calls eq_refl lastfm_calls_app w 0 0 1).
  - intros t a st.
    destruct (search_song_trace w t a st) as (n & En & rest & -> & Hrest).
    exists (Attempt (GeniusSearch t a) :: rest). split; [exact En|].
    change (lastfm_calls rest <= 0). lia.
  - intros url st.
    destruct (get_genius_about_trace w url st) as (n & En & Hn).
    exists n. split; [exact En | lia].
  - intros a t st.
    destruct (get_lastfm_about_result w a t st) as [(rest & E & Hrest) _].
    exists (Attempt (LastfmTrackInfo a t) :: rest). split; [exact E|].
    change (S (lastfm_calls rest) <= 1). lia.
Qed.

(** X28.  Whatever the network answers, redirects included, a row costs
    at most 403 attempts: a request of the session makes at most 6 attempts
    on its URL and 6 on each of the at most 30 targets it is redirected to,
    which is 186 for the search and 186 for the page, and [requests.get]
    makes one attempt on Last.fm and one on each of at most 30 targets.
    Last.fm itself is attempted at most once. *)
Theorem process_song_attempts_in_all
  (w : world) (row : Series.t) (st : state) :
  exists new,
    events (snd (process_song w row st)) = events st ++ new
    /\ attempts new <= 403
    /\ lastfm_calls new <= 1.
Proof.
  destruct (process_song_costs attempts eq_refl attempts_app w 186 186 31)
    with (row := row) (st := st) as (new & E & Hattempts).
  - intros t a. unfold search_song.
    apply traced_bind_silent; [|intros; silence].
    apply traced_try_except_silent; [|intros; silence].
    apply traced_bind_silent; [|intros; silence].
    apply session_get_attempts_in_all.
  - intros song_url. unfold get_genius_about.
    apply traced_bind_silent; [|intros; silence].
    apply traced_try_except_silent; [|intros; silence].
    apply traced_bind_silent; [|intros; silence].
    unfold session_get_page.
    destruct song_url;
      try (apply costs_silent; [reflexivity | apply silent_raise]).
    apply session_get_attempts_in_all.
  - intros a t. apply get_lastfm_about_attempts_in_all.
  - destruct (process_song_lastfm_once w row st) as (new' & E' & Hcalls).
    rewrite E in E'. apply app_inv_head in E'. subst new'.
    exists new. split; [exact E|]. split; [exact Hattempts | exact Hcalls].
Qed.

(** ** The labels of the classifier *)

Section Labels.

Local Open Scope string_scope.

Lemma string_app_assoc (a b c : string) : (a ++ b) ++ c = a ++ b ++ c.
Proof. induction a as [|x a IH]; simpl; [reflexivity | now rewrite IH]. Qed.

Lemma contains_trans (a b text : string) :
  Py.contains a b = true -> Py.contains b text = true ->
  Py.contains a text = true.
Proof.
  rewrite !contains_occurs. intros (p1 & q1 & ->) (p2 & q2 & ->).
  exists (p2 ++ p1), (q1 ++ q2). now rewrite !string_app_assoc.
Qed.

Lemma classify_topic_find_rule (text : string) :
  (exists words, In (classify_topic text, words) keywords)
  \/ classify_topic text = "other".
Proof.
  unfold classify_topic. rewrite for_topics_find.
  destruct (find (rule_matches text) keywords) as [[topic words]|] eqn:E;
    [|now right].
  left. exists words. apply find_some in E. simpl. tauto.
Qed.

(** X10.  The label is always one of the table, or ["other"]: no text gets
    a label outside the ten. *)
Theorem classify_topic_label (text : string) :
  In (classify_topic text)
    ["love"; "friends"; "life"; "news"; "holiday"; "friendship"; "war";
     "peace"; "character"; "other"].
Proof.
  destruct (classify_topic_find_rule text) as [(words & Hin) | ->].
  - simpl in Hin.
    repeat (destruct Hin as [[= <- _] | Hin]; [simpl; tauto|]).
    contradiction.
  - simpl. tauto.
Qed.

(** X11.  The classifier ignores case: two texts with the same lower-cased
    form get the same label. *)
Theorem classify_topic_case (text1 text2 : string)
  (Hlower : Py.lower text1 = Py.lower text2) :
  classify_topic text1 = classify_topic text2.
Proof.
  unfold classify_topic. rewrite !for_topics_find.
  replace (rule_matches text1) with (rule_matches text2); [reflexivity|].
  unfold rule_matches. now rewrite Hlower.
Qed.

Lemma classify_topic_case_witness :
  classify_topic "LOVE me" = classify_topic "love ME".
Proof. apply classify_topic_case. reflexivity. Defined.

(** X12.  The keyword ["friendship"] of the rule [friendship] is never the
    one that decides: a text labelled ["friendship"] holds neither
    ["friend"] nor ["friendship"], and holds ["companionship"] or
    ["bond"]; whatever holds ["friendship"] is labelled by an earlier
    rule. *)
Theorem friendship_label_needs_other_keywords (text : string)
  (Hlabel : classify_topic text = "friendship") :
  Py.contains "friend" (Py.lower text) = false
  /\ Py.contains "friendship" (Py.lower text) = false
  /\ (Py.contains "companionship" (Py.lower text) = true
      \/ Py.contains "bond" (Py.lower text) = true).
Proof.
  assert (Hfriend : Py.contains "friend" (Py.lower text) = false).
  { revert Hlabel. unfold classify_topic, keywords.
    cbn [for_topics for_words].
    repeat match goal with
           | |- context [if ?c then _ else _] =>
               destruct c eqn:?; try discriminate; try reflexivity
           end. }
  assert (Hship : Py.contains "friendship" (Py.lower text) = false).
  { destruct (Py.contains "friendship" (Py.lower text)) eqn:E;
      [|reflexivity].
    rewrite <- Hfriend. symmetry.
    apply (contains_trans "friend" "friendship"); [reflexivity | exact E]. }
  split; [exact Hfriend|]. split; [exact Hship|].
  revert Hlabel. unfold classify_topic, keywords.
  cbn [for_topics for_words]. rewrite Hship.
  repeat match goal with
         | |- context [if ?c then _ else _] =>
             destruct c eqn:?; try discriminate; auto
         end.
Qed.

Lemma friendship_label_needs_other_keywords_witness :
  Py.contains "friend" (Py.lower "A Bond") = false
  /\ Py.contains "friendship" (Py.lower "A Bond") = false
  /\ (Py.contains "companionship" (Py.lower "A Bond") = true
      \/ Py.contains "bond" (Py.lower "A Bond") = true).
Proof.
  apply (friendship_label_needs_other_keywords "A Bond"). reflexivity.
Defined.

End Labels.

(** ** The cells a row is given *)

Lemma assign_columns_cells (row enriched : Series.t) (about_section : value) :
  assign_columns row about_section = Ok enriched ->
  exists lyrics,
    Series.lyrics row = VStr lyrics
    /\ Series.topic enriched
       = Some (VStr (classify_topic
                       ((lyrics ++ " ") ++ about_text enriched)%string))
    /\ (Series.about_section enriched = VNone
        /\ Value.truthy about_section = false
        \/ exists text,
             about_section = VStr text /\ text <> EmptyString
             /\ Series.about_section enriched = VStr (replace_separators text)).
Proof.
  unfold assign_columns, bindR, about_text.
  destruct (Series.lyrics row) as [| | | |lyrics| |] eqn:Hlyrics;
    try (destruct (if Value.truthy about_section
                   then preprocess_text about_section else Ok VNone);
         simpl; rewrite ?Hlyrics; discriminate).
  destruct (Value.truthy about_section) eqn:Htruthy.
  - unfold preprocess_text. rewrite Htruthy.
    destruct about_section as [| | | |text| |]; try discriminate.
    simpl. rewrite Hlyrics. simpl.
    assert (Hne : text <> EmptyString)
      by (intros ->; discriminate).
    assert (Hne' : (replace_separators text =? EmptyString)%string = false).
    { apply String.eqb_neq. now rewrite replace_separators_empty. }
    unfold Value.or. simpl. rewrite Hne'. simpl.
    intros [= <-]. simpl. exists lyrics. eauto 8.
  - simpl. rewrite Hlyrics. simpl. intros [= <-]. simpl.
    exists lyrics. auto.
Qed.

(** X13.  The [about_section] of a row that [process_song] returns is
    [None] or a text that is not empty and holds no comma, line feed or
    carriage return. *)
Theorem process_song_about_section_clean
  (w : world) (row enriched : Series.t) (st : state)
  (Hreturned : fst (process_song w row st) = Ok (Some enriched)) :
  Series.about_section enriched = VNone
  \/ exists text,
       Series.about_section enriched = VStr text
       /\ text <> EmptyString
       /\ Py.has_char Py.comma text = false
       /\ Py.has_char Py.LF text = false
       /\ Py.has_char Py.CR text = false.
Proof.
  destruct (process_song_returned _ _ _ _ Hreturned) as (about & _ & He).
  destruct (assign_columns_cells _ _ _ He)
    as (lyrics & _ & _ & [[H _] | (text & -> & Hne & H)]); [now left|].
  right. exists (replace_separators text). split; [exact H|].
  split; [now rewrite replace_separators_empty|].
  apply clean_has_no, replace_separators_clean.
Qed.

Lemma process_song_about_section_clean_witness :
  Series.about_section
    (Series.set_topic
       (Series.set_about_section love_song
          (VStr "A song about love  and heart"))
       (VStr "love")) = VNone
  \/ exists text,
       Series.about_section
         (Series.set_topic
            (Series.set_about_section love_song
               (VStr "A song about love  and heart"))
            (VStr "love")) = VStr text
       /\ text <> EmptyString
       /\ Py.has_char Py.comma text = false
       /\ Py.has_char Py.LF text = false
       /\ Py.has_char Py.CR text = false.
Proof.
  apply (process_song_about_section_clean genius_world love_song _ initial).
  reflexivity.
Defined.

(** X14.  The [topic] of a returned row is the label of its lyrics, a
    space, and its [about_section] (nothing when that is [None]), in this
    order: the lyrics are a text, and the label is computed from the
    normalised about-text. *)
Theorem process_song_topic
  (w : world) (row enriched : Series.t) (st : state)
  (Hreturned : fst (process_song w row st) = Ok (Some enriched)) :
  exists lyrics,
    Series.lyrics row = VStr lyrics
    /\ Series.topic enriched
       = Some (VStr (classify_topic
                       ((lyrics ++ " ") ++ about_text enriched)%string)).
Proof.
  destruct (process_song_returned _ _ _ _ Hreturned) as (about & _ & He).
  destruct (assign_columns_cells _ _ _ He) as (lyrics & H1 & H2 & _).
  eauto.
Qed.

Lemma process_song_topic_witness :
  exists lyrics,
    Series.lyrics love_song = VStr lyrics
    /\ Some (VStr "love")
       = Some (VStr (classify_topic
                       ((lyrics ++ " ") ++ "A song about love  and heart")%string)).
Proof.
  exact (process_song_topic genius_world love_song
           (Series.set_topic
              (Series.set_about_section love_song
                 (VStr "A song about love  and heart"))
              (VStr "love"))
           initial eq_refl).
Defined.

Lemma get_lastfm_about_returns (w : world) (artist title v : value)
  (st : state) :
  fst (get_lastfm_about w artist title st) = Ok v ->
  v = VStr sentinel
  \/ lastfm_found (lastfm_answer w artist title st) = Some v.
Proof.
  rewrite get_lastfm_about_run. unfold lastfm_found, lastfm_answer.
  destruct (requests_get w lastfm_base_url (LastfmTrackInfo artist title) st)
    as [[r|x] st1]; cbv zeta; simpl.
  2: { destruct (is_request_exception w x); simpl; [|discriminate].
       intros [= <-]. now left. }
  destruct (status_code r =? 200)%Z; simpl; [|intros [= <-]; now left].
  destruct (json r) as [data|].
  - destruct (wiki_content data) as [[content|]|e]; simpl.
    + intros [= <-]. now right.
    + intros [= <-]. now left.
    + destruct (is_request_exception w e); simpl; [|discriminate].
      intros [= <-]. now left.
  - destruct (json_error_is_request_exception w); simpl; [|discriminate].
    intros [= <-]. now left.
Qed.

(** X15.  A returned row has a null [about_section] only through Last.fm:
    the primary source yielded nothing and Last.fm answered with a wiki
    content that is falsy (an empty text, [null], zero, [false], an empty
    list or object). *)
Theorem null_about_section_comes_from_lastfm
  (w : world) (row enriched : Series.t) (st : state)
  (Hreturned : fst (process_song w row st) = Ok (Some enriched))
  (Hnull : Series.about_section enriched = VNone) :
  exists nothing st1 content,
    primary w (Series.artist row) (Series.title row) st = (Ok nothing, st1)
    /\ Value.truthy nothing = false
    /\ lastfm_found
         (lastfm_answer w (Series.artist row) (Series.title row) st1)
       = Some content
    /\ Value.truthy content = false.
Proof.
  destruct (process_song_returned _ _ _ _ Hreturned) as (about & Hget & He).
  destruct (assign_columns_cells _ _ _ He)
    as (lyrics & _ & _ & [[_ Hfalsy] | (text & _ & _ & H)]);
    [|congruence].
  rewrite get_about_section_primary in Hget.
  destruct (primary w (Series.artist row) (Series.title row) st)
    as [[nothing|e] st1]; [|discriminate].
  destruct (Value.truthy nothing) eqn:Hnothing.
  - simpl in Hget. injection Hget as ->. congruence.
  - apply get_lastfm_about_returns in Hget. destruct Hget as [-> | Hfound].
    + discriminate.
    + exists nothing, st1, about. auto.
Qed.

Lemma null_about_section_comes_from_lastfm_witness :
  exists nothing st1 content,
    primary empty_wiki_world (Series.artist love_song)
      (Series.title love_song) initial = (Ok nothing, st1)
    /\ Value.truthy nothing = false
    /\ lastfm_found
         (lastfm_answer empty_wiki_world (Series.artist love_song)
            (Series.title love_song) st1)
       = Some content
    /\ Value.truthy content = false.
Proof.
  exact (null_about_section_comes_from_lastfm empty_wiki_world love_song
           (Series.set_topic (Series.set_about_section love_song VNone)
              (VStr "other"))
           initial eq_refl eq_refl).
Defined.

(** ** Line 136: the lyrics column *)

Lemma preprocess_text_raises (v : value) (e : exn) :
  preprocess_text v = Raise e ->
  e = AttributeError /\ Value.truthy v = true /\ Value.is_str v = false.
Proof.
  unfold preprocess_text. destruct (Value.truthy v) eqn:H; [|discriminate].
  destruct v; try discriminate; intros [= <-]; auto.
Qed.

Lemma preprocess_text_returns (v cell : value) :
  preprocess_text v = Ok cell ->
  Value.truthy v = false /\ cell = v
  \/ exists s, v = VStr s /\ cell = VStr (replace_separators s).
Proof.
  unfold preprocess_text. destruct (Value.truthy v) eqn:H.
  - destruct v; try discriminate. intros [= <-]. eauto.
  - intros [= <-]. auto.
Qed.

(** X16.  Line 136 fails as a whole, with [AttributeError], as soon as one
    sampled row has lyrics that are truthy and no text, a missing cell
    ([nan]) among them; no row is processed then. *)
Theorem apply_preprocess_text_missing_lyrics (rows : list Series.t)
  (Hmissing : Exists (fun row => Value.truthy (Series.lyrics row) = true
                                 /\ Value.is_str (Series.lyrics row) = false)
                rows) :
  apply_preprocess_text rows = Raise AttributeError.
Proof.
  induction Hmissing as [row rest [Htruthy Hstr] | row rest _ IH];
    cbn [apply_preprocess_text]; unfold bindR.
  - unfold preprocess_text. rewrite Htruthy.
    destruct (Series.lyrics row); try discriminate; reflexivity.
  - destruct (preprocess_text (Series.lyrics row)) as [cell|e] eqn:E.
    + now rewrite IH.
    + apply preprocess_text_raises in E. destruct E as [-> _]. reflexivity.
Qed.

Lemma apply_preprocess_text_missing_lyrics_witness :
  apply_preprocess_text
    [love_song;
     {| Series.id := VNum 2; Series.title := VStr "Untitled";
        Series.tag := VStr "rock"; Series.artist := VStr "Artist B";
        Series.lyrics := VNaN; Series.about_section := VNone;
        Series.topic := None |}]
  = Raise AttributeError.
Proof.
  apply apply_preprocess_text_missing_lyrics.
  apply Exists_cons_tl, Exists_cons_hd. split; reflexivity.
Defined.

(** X17.  When line 136 succeeds it keeps the number and order of the rows
    and every cell but [lyrics]; lyrics that are a text come out with
    every comma, line feed and carriage return replaced by a space, and
    falsy lyrics come out as they were. *)
Theorem apply_preprocess_text_rows (rows rows' : list Series.t)
  (Hdone : apply_preprocess_text rows = Ok rows') :
  Forall2
    (fun row row' =>
       same_but_lyrics row row'
       /\ (Value.truthy (Series.lyrics row) = false
           /\ Series.lyrics row' = Series.lyrics row
           \/ exists s, Series.lyrics row = VStr s
                        /\ Series.lyrics row' = VStr (replace_separators s)))
    rows rows'.
Proof.
  revert rows' Hdone. induction rows as [|row rest IH]; intros rows'.
  - intros [= <-]. constructor.
  - cbn [apply_preprocess_text]. unfold bindR.
    destruct (preprocess_text (Series.lyrics row)) as [cell|e] eqn:E;
      [|discriminate].
    destruct (apply_preprocess_text rest) as [rest'|e]; [|discriminate].
    intros [= <-]. constructor; [|now apply IH].
    split; [repeat split|]. simpl.
    apply preprocess_text_returns in E.
    destruct E as [[Hfalsy ->] | (s & Hs & ->)]; eauto.
Qed.

Lemma apply_preprocess_text_rows_witness :
  Forall2
    (fun row row' =>
       same_but_lyrics row row'
       /\ (Value.truthy (Series.lyrics row) = false
           /\ Series.lyrics row' = Series.lyrics row
           \/ exists s, Series.lyrics row = VStr s
                        /\ Series.lyrics row' = VStr (replace_separators s)))
    [{| Series.id := VNum 3; Series.title := VStr "La";
        Series.tag := VStr "pop"; Series.artist := VStr "Artist C";
        Series.lyrics := VStr "la, la"; Series.about_section := VNone;
        Series.topic := None |}]
    [{| Series.id := VNum 3; Series.title := VStr "La";
        Series.tag := VStr "pop"; Series.artist := VStr "Artist C";
        Series.lyrics := VStr "la  la"; Series.about_section := VNone;
        Series.topic := None |}].
Proof.
  apply apply_preprocess_text_rows. reflexivity.
Defined.

Lemma clean_empty_or_replaced (v cell : value) :
  preprocess_text v = Ok cell ->
  forall s, cell = VStr s -> clean s = true.
Proof.
  intros H s ->. apply preprocess_text_returns in H.
  destruct H as [[Hfalsy <-] | (s0 & _ & [= ->])].
  - destruct s; [reflexivity | discriminate].
  - apply replace_separators_clean.
Qed.

Lemma apply_preprocess_text_in (rows rows' : list Series.t) (row' : Series.t) :
  apply_preprocess_text rows = Ok rows' -> In row' rows' ->
  exists v, preprocess_text v = Ok (Series.lyrics row').
Proof.
  revert rows'. induction rows as [|row rest IH]; intros rows'.
  - intros [= <-] [].
  - cbn [apply_preprocess_text]. unfold bindR.
    destruct (preprocess_text (Series.lyrics row)) as [cell|e] eqn:E;
      [|discriminate].
    destruct (apply_preprocess_text rest) as [rest'|e]; [|discriminate].
    intros [= <-] [<- | Hin]; [simpl; eauto | eauto].
Qed.

(** X18.  The lyrics of an output row are of one line and one field: when
    line 136 has succeeded and [process_song] returns a row whose lyrics
    are those of a row of its result (lines 139-140 touch other columns
    only), the lyrics of the returned row are a text without comma, line
    feed or carriage return. *)
Theorem output_lyrics_clean
  (w : world) (rows rows' : list Series.t) (row' given enriched : Series.t)
  (st : state)
  (Hdone : apply_preprocess_text rows = Ok rows')
  (Hin : In row' rows')
  (Hlyrics : Series.lyrics given = Series.lyrics row')
  (Hreturned : fst (process_song w given st) = Ok (Some enriched)) :
  exists lyrics,
    Series.lyrics enriched = VStr lyrics /\ clean lyrics = true.
Proof.
  destruct (process_song_returned _ _ _ _ Hreturned) as (about & _ & He).
  destruct (assign_columns_cells _ _ _ He) as (lyrics & Hgiven & _).
  destruct (assign_columns_frame _ _ _ He) as (_ & _ & _ & _ & Hframe & _).
  exists lyrics. split; [congruence|].
  destruct (apply_preprocess_text_in _ _ _ Hdone Hin) as (v & Hv).
  eapply clean_empty_or_replaced; [exact Hv | congruence].
Qed.

Lemma output_lyrics_clean_witness :
  exists lyrics,
    Series.lyrics
      (Series.set_topic
         (Series.set_about_section love_song
            (VStr "A song about love  and heart"))
         (VStr "love"))
    = VStr lyrics
    /\ clean lyrics = true.
Proof.
  apply (output_lyrics_clean genius_world [love_song] [love_song] love_song
           love_song _ initial eq_refl (or_introl eq_refl) eq_refl eq_refl).
Defined.

(** ** The output *)

Lemma matches_app (a b : list (option Series.t)) :
  matches (a ++ b) = matches a ++ matches b.
Proof.
  induction a as [|[row|] a IH]; simpl; [reflexivity| |exact IH].
  destruct (Value.ne_str (Series.about_section row) sentinel); simpl;
    now rewrite IH.
Qed.

(** X19.  Line 150 works entry by entry: the output of two batches of
    results is the output of the first followed by the output of the
    second, filtering the output again changes nothing, and the output
    never has more rows than there are results. *)
Theorem matches_compose (a b : list (option Series.t)) :
  matches (a ++ b) = matches a ++ matches b
  /\ matches (map Some (matches a)) = matches a
  /\ length (matches a) <= length a.
Proof.
  split; [apply matches_app|]. split.
  - induction a as [|[row|] a IH]; simpl; [reflexivity| |exact IH].
    destruct (Value.ne_str (Series.about_section row) sentinel) eqn:E;
      simpl; [rewrite E, IH; reflexivity | exact IH].
  - induction a as [|[row|] a IH]; simpl; [lia| |lia].
    destruct (Value.ne_str (Series.about_section row) sentinel); simpl; lia.
Qed.

Lemma isnull_ne_sentinel (v : value) :
  isnull v = true -> Value.ne_str v sentinel = true.
Proof. destruct v; simpl; auto; discriminate. Qed.

(** X20.  The check of lines 160-162 sees every returned row whose
    [about_section] is null: the rows it reports are exactly the rows of
    the results with a null [about_section], none of which line 150
    removes. *)
Theorem missing_about_of_matches
  (results : list (option Series.t)) (row : Series.t) :
  In row (missing_about (matches results))
  <-> In (Some row) results /\ isnull (Series.about_section row) = true.
Proof.
  unfold missing_about. rewrite filter_In.
  induction results as [|[r|] results IH]; simpl.
  - tauto.
  - destruct (Value.ne_str (Series.about_section r) sentinel) eqn:E; simpl.
    + split.
      * intros [[<- | Hin] Hnull]; [auto | tauto].
      * intros [[[= <-] | Hin] Hnull]; [auto | tauto].
    + split.
      * tauto.
      * intros [[[= <-] | Hin] Hnull]; [|tauto].
        apply isnull_ne_sentinel in Hnull. congruence.
  - split; [tauto|]. intros [[H | H] Hnull]; [discriminate | tauto].
Qed.

(** X21.  The results of [process_all] stand in the order of the rows: the
    result at the place of a row is [None] or that row with its [id],
    [title], [tag], [artist] and [lyrics], so no row is made up, doubled
    or moved. *)
Theorem process_all_aligned (w : world) (rows : list Series.t) (st : state) :
  exists results,
    fst (process_all w rows st) = Ok results
    /\ Forall2
         (fun row result =>
            result = None
            \/ exists enriched, result = Some enriched
                                /\ same_input row enriched)
         rows results.
Proof.
  revert st. induction rows as [|row rows IH]; intros st.
  - exists []. split; [reflexivity | constructor].
  - cbn [process_all]. unfold bind at 1.
    destruct (process_song_ok w row st) as [result Hresult].
    destruct (process_song w row st) as [res st1] eqn:Hrun.
    simpl in Hresult. subst res.
    unfold bind at 1. destruct (IH st1) as (results & Hresults & Hall).
    destruct (process_all w rows st1) as [res st2].
    simpl in Hresults. subst res.
    exists (result :: results). split; [reflexivity|].
    constructor; [|exact Hall].
    destruct result as [enriched|]; [right | now left].
    exists enriched. split; [reflexivity|].
    assert (Hreturned : fst (process_song w row st) = Ok (Some enriched))
      by now rewrite Hrun.
    destruct (process_song_returned _ _ _ _ Hreturned) as (about & _ & He).
    destruct (assign_columns_frame _ _ _ He) as (H1 & H2 & H3 & H4 & H5 & _).
    repeat split; assumption.
Qed.

(** ** A body of Last.fm of another shape *)

Lemma wiki_content_raises (data : value) (e : exn) :
  wiki_content data = Raise e -> e = KeyError \/ e = TypeError.
Proof.
  assert (Hget : forall v key x, Value.getitem v key = Raise x ->
                                 x = KeyError \/ x = TypeError).
  { intros v key x. unfold Value.getitem.
    destruct v; try (intros [= <-]; auto).
    destruct (Value.lookup key entries); [discriminate|].
    intros [= <-]; auto. }
  assert (Hin : forall v key x, Value.contains key v = Raise x ->
                                x = KeyError \/ x = TypeError).
  { intros v key x. unfold Value.contains.
    destruct v; try discriminate; intros [= <-]; auto. }
  unfold wiki_content, bindR. cbn [path]. unfold bindR.
  destruct (Value.contains "track" data) as [[|]|x] eqn:E1;
    [|discriminate|intros [= <-]; eauto].
  destruct (Value.getitem data "track") as [track|x] eqn:E2;
    [|intros [= <-]; eauto].
  destruct (Value.contains "wiki" track) as [[|]|x] eqn:E3;
    [|discriminate|intros [= <-]; eauto].
  destruct (Value.getitem track "wiki") as [wiki|x] eqn:E4;
    [|intros [= <-]; eauto].
  destruct (Value.getitem wiki "content") as [content|x] eqn:E5;
    [discriminate|intros [= <-]; eauto].
Qed.

(** X22.  A body of Last.fm of status 200 whose shape lines 70-71 cannot
    read (a [wiki] without [content], a body that is a number) is not taken
    for a miss: [get_lastfm_about] raises [KeyError] or [TypeError] after
    its one attempt instead of returning the sentinel, and [process_song]
    below it drops the row. *)
Theorem get_lastfm_about_unreadable_body
  (w : world) (artist title data : value) (r : response) (e : exn)
  (st : state)
  (Hanswer : transport w (events st) (LastfmTrackInfo artist title)
             = Responded r)
  (Hstatus : status_code r = 200%Z)
  (Hbody : json r = Some data)
  (Hshape : wiki_content data = Raise e) :
  (e = KeyError \/ e = TypeError)
  /\ get_lastfm_about w artist title st
     = (Raise e, record [Attempt (LastfmTrackInfo artist title)] st).
Proof.
  destruct (wiki_content_raises _ _ Hshape) as [-> | ->];
    (split; [auto|]);
    rewrite get_lastfm_about_run, (requests_get_responded _ _ _ _ Hanswer);
    cbv zeta; rewrite Hstatus, Hbody, Hshape; reflexivity.
Qed.

Lemma get_lastfm_about_unreadable_body_witness :
  get_lastfm_about no_content_world (VStr "Artist A") (VStr "Love Song")
    initial
  = (Raise KeyError,
     record [Attempt (LastfmTrackInfo (VStr "Artist A") (VStr "Love Song"))]
       initial)
  /\ fst (process_song no_content_world love_song initial) = Ok None.
Proof.
  split; [|reflexivity].
  exact (proj2 (get_lastfm_about_unreadable_body no_content_world
                  (VStr "Artist A") (VStr "Love Song")
                  (VDict [("track", VDict [("wiki", VDict [])])]%string)
                  (json_response
                     (VDict [("track", VDict [("wiki", VDict [])])]%string))
                  KeyError initial eq_refl eq_refl eq_refl eq_refl)).
Defined.

(** ** The lines a row leaves in the log *)

Section Log.

Context {A B : Type}.

Lemma grows_ret (a : A) : grows (ret a).
Proof. intros st. exists []. simpl. now rewrite app_nil_r. Qed.

Lemma grows_raise (e : exn) : grows (@raise A e).
Proof. intros st. exists []. simpl. now rewrite app_nil_r. Qed.

Lemma grows_lift (r : result A) : grows (lift r).
Proof. intros st. exists []. simpl. now rewrite app_nil_r. Qed.

Lemma grows_bind (c : M A) (k : A -> M B) :
  grows c -> (forall a, grows (k a)) -> grows (bind c k).
Proof.
  intros Hc Hk st. unfold bind. destruct (Hc st) as (l1 & E1).
  destruct (c st) as [[a|e] st1]; simpl in *; [|eauto].
  destruct (Hk a st1) as (l2 & E2). exists (l1 ++ l2).
  now rewrite E2, E1, app_assoc.
Qed.

Lemma grows_try_except (body : M A) (catches : exn -> bool)
  (handler : exn -> M A) :
  grows body -> (forall e, grows (handler e)) ->
  grows (try_except body catches handler).
Proof.
  intros Hb Hh st. unfold try_except. destruct (Hb st) as (l1 & E1).
  destruct (body st) as [[a|e] st1]; simpl in *; [eauto|].
  destruct (catches e); simpl; [|eauto].
  destruct (Hh e st1) as (l2 & E2). exists (l1 ++ l2).
  now rewrite E2, E1, app_assoc.
Qed.

End Log.

Lemma grows_logging (entry : log_entry) : grows (logging entry).
Proof. intros st. exists [entry]. reflexivity. Qed.

Lemma grows_urlopen (w : world) (retries : Retry) (e : endpoint) :
  forall remaining errors, grows (urlopen w retries remaining errors e).
Proof.
  assert (Hone : forall (x : result sent) st,
            exists lines,
              log (snd (x, record [Attempt e] st)) = log st ++ lines)
    by (intros; exists []; simpl; now rewrite app_nil_r).
  induction remaining as [|remaining IH]; intros errors st;
    rewrite urlopen_step; cbv zeta;
    destruct (transport w (events st) e) as [|r|to|];
    try destruct (is_retry _ _ r); try apply Hone.
  - destruct (IH (S errors)
                (record (slept retries (S errors) None)
                   (record [Attempt e] st))) as (l & E).
    exists l. exact E.
  - destruct (IH (S errors)
                (record (slept retries (S errors) (Some r))
                   (record [Attempt e] st))) as (l & E).
    exists l. exact E.
Qed.

Lemma grows_resolve_redirects (w : world) (adapters : scheme -> Retry) :
  forall (max_redirects : nat) (resp : sent),
    grows (resolve_redirects w adapters max_redirects resp).
Proof.
  induction max_redirects as [|redirects IH]; intros resp;
    destruct resp as [r|[|[s| |] url]|]; cbn [resolve_redirects];
    try apply grows_ret; try apply grows_raise.
  apply grows_bind; [apply grows_urlopen | exact IH].
Qed.

Lemma grows_Session_get (w : world) (adapters : scheme -> Retry)
  (url : string) (e : endpoint) :
  grows (Session_get w adapters url e).
Proof.
  unfold Session_get.
  destruct (prepare w url) as [s| |]; try apply grows_raise.
  apply grows_bind; [apply grows_urlopen|].
  intros resp. apply grows_resolve_redirects.
Qed.

Ltac growing :=
  repeat first
    [ apply grows_ret | apply grows_raise | apply grows_lift
    | apply grows_logging | apply grows_Session_get | apply grows_urlopen
    | apply grows_bind; [|intros ?]
    | apply grows_try_except; [|intros ?]
    | match goal with
      | |- grows (if ?b then _ else _) => destruct b
      | |- grows (match ?x with _ => _ end) => destruct x
      end ].

Lemma grows_get_about_section (w : world) (artist title : value) :
  grows (get_about_section w artist title).
Proof.
  unfold get_about_section, search_song, get_genius_about, get_lastfm_about,
    session_get_page, session_get, requests_get, response_json,
    log_request_failed, or_else.
  growing.
Qed.

(** X23.  No row is dropped in silence: [process_song] keeps the lines
    that were in the log, adds those of its lookups, and ends with one
    line of its own, the debug line of the song when it returns the row
    and the error line with the [id] of the row and the error when it
    returns [None]. *)
Theorem process_song_final_line (w : world) (row : Series.t) (st : state) :
  exists lines final,
    log (snd (process_song w row st)) = log st ++ lines ++ [final]
    /\ match fst (process_song w row st) with
       | Ok (Some _) =>
           final = LogDebug (Processed (Series.title row) (Series.artist row))
       | Ok None => exists e, final = row_error row e
       | Raise _ => False
       end.
Proof.
  rewrite process_song_run, process_song_try_run.
  destruct (invalid_title (Series.title row)).
  { exists [], (row_error row ValueError). simpl. eauto. }
  destruct (grows_get_about_section w (Series.artist row) (Series.title row)
              st) as (lines & E).
  destruct (get_about_section w (Series.artist row) (Series.title row) st)
    as [[about|e] st1]; simpl in E.
  - destruct (assign_columns row about) as [enriched|e]; simpl.
    + exists lines, (LogDebug (Processed (Series.title row)
                                 (Series.artist row))).
      rewrite E, <- app_assoc. auto.
    + exists lines, (row_error row e). rewrite E, <- app_assoc. eauto.
  - simpl. exists lines, (row_error row e). rewrite E, <- app_assoc. eauto.
Qed.

(** ** A row with a title *)

Lemma extends_bind {A B : Type} (c : M A) (k : A -> M B) :
  traced c (fun _ => True) -> (forall a, traced (k a) (fun _ => True)) ->
  traced (bind c k) (fun _ => True).
Proof.
  intros Hc Hk st. unfold bind. destruct (Hc st) as (n1 & E1 & _).
  destruct (c st) as [[a|e] st1]; simpl in E1; [|eauto].
  destruct (Hk a st1) as (n2 & E2 & _). exists (n1 ++ n2).
  now rewrite E2, E1, app_assoc.
Qed.

Lemma begins_bind {A B : Type} (c : M A) (k : A -> M B) (ev : event) :
  traced c (fun new => exists rest, new = ev :: rest) ->
  (forall a, traced (k a) (fun _ => True)) ->
  traced (bind c k) (fun new => exists rest, new = ev :: rest).
Proof.
  intros Hc Hk st. unfold bind. destruct (Hc st) as (n1 & E1 & rest & ->).
  destruct (c st) as [[a|e] st1]; simpl in E1; [|eauto].
  destruct (Hk a st1) as (n2 & E2 & _). exists ((ev :: rest) ++ n2).
  rewrite E2, E1, app_assoc. simpl. eauto.
Qed.

Lemma get_about_section_begins (w : world) (artist title : value) :
  traced (get_about_section w artist title)
    (fun new => exists rest, new = Attempt (GeniusSearch title artist) :: rest).
Proof.
  unfold get_about_section. apply begins_bind.
  - eapply traced_weaken; [|apply search_song_trace].
    intros new (rest & -> & _). eauto.
  - intros song_url.
    assert (Hlastfm : traced (get_lastfm_about w artist title)
                        (fun _ => True)).
    { intros st.
      destruct (get_lastfm_about_result w artist title st)
        as [(rest & E & _) _].
      eexists. split; [exact E | exact I]. }
    destruct (Value.truthy song_url); [|exact Hlastfm].
    apply extends_bind.
    + eapply traced_weaken; [|apply get_genius_about_trace]. auto.
    + intros about_section. destruct (Value.truthy about_section);
        [|exact Hlastfm].
      apply silent_traced; [exact I | apply silent_ret].
Qed.

(** X24.  A row whose title is a text that is not blank is always looked
    up: the first event of [process_song] is the attempt on the Genius
    search with the title and the artist of the row. *)
Theorem process_song_searches_valid_title
  (w : world) (row : Series.t) (s : string) (st : state)
  (Htitle : Series.title row = VStr s)
  (Hblank : blank s = false) :
  exists rest,
    events (snd (process_song w row st))
    = events st
      ++ Attempt (GeniusSearch (Series.title row) (Series.artist row))
         :: rest.
Proof.
  assert (Hvalid : invalid_title (Series.title row) = false).
  { destruct (invalid_title (Series.title row)) eqn:E; [|reflexivity].
    apply invalid_title_blank in E. destruct E as [E | (s' & E & Hs')].
    - rewrite Htitle in E. discriminate.
    - rewrite Htitle in E. injection E as <-. congruence. }
  rewrite process_song_run, process_song_try_run, Hvalid.
  destruct (get_about_section_begins w (Series.artist row) (Series.title row)
              st) as (new & E & rest & ->).
  exists rest.
  destruct (get_about_section w (Series.artist row) (Series.title row) st)
    as [[about|e] st1]; simpl in E; [|exact E].
  destruct (assign_columns row about); exact E.
Qed.

Lemma process_song_searches_valid_title_witness :
  exists rest,
    events (snd (process_song genius_world love_song initial))
    = events initial
      ++ Attempt (GeniusSearch (Series.title love_song)
                    (Series.artist love_song))
         :: rest.
Proof.
  exact (process_song_searches_valid_title genius_world love_song
           "Love Song" initial eq_refl eq_refl).
Defined.
